(** * Two documentation-maintenance scripts of cloudposse/atmos

    [clean_planfiles_doc.py] rewrites one page with a pipeline of six
    [re.sub] calls; [update_terraform_docs.py] walks a table of file names,
    inserts a sentence and a callout box into each page and removes a
    temporary file.

    The embedding is shallow.  A text is a list of characters; characters
    are the code points below 256, on which [\d] is the ten decimal digits
    and [str.isspace] the twelve code points listed in [py_isspace].  The
    regular expressions are interpreted by a backtracking matcher with the
    priorities of Python's [re] (leftmost alternative first, lazy repeats
    try the continuation first, greedy repeats the longest run first,
    lookahead does not consume).  The file system is a finite map from
    paths to contents, a content being the text that [open] in text mode
    reads and writes; a script is a function from the disk to a result, a
    new disk and the list of writes, removals and prints it performed. *)

From Stdlib Require Import Ascii.
From stdpp Require Import gmap strings list fin_maps.

(** ** Texts and the string methods the scripts call *)

Module Py.

Abbreviation text := (list ascii) (only parsing).

Definition txt (s : string) : text := String.list_ascii_of_string s.

Definition nl : ascii := "010"%char.
Definition dquote : ascii := "034"%char.

(** [sep.join(ls)] *)
Fixpoint str_join (sep : text) (ls : list text) : text :=
  match ls with
  | [] => []
  | l :: ls' =>
      match ls' with
      | [] => l
      | _ :: _ => l ++ sep ++ str_join sep ls'
      end
  end.

Definition unlines : list text -> text := str_join [nl].

(** [s.split(c)] for a separator of one character: never the empty list. *)
Fixpoint str_split (c : ascii) (s : text) : list text :=
  match s with
  | [] => [[]]
  | x :: s' =>
      if bool_decide (x = c) then [] :: str_split c s'
      else match str_split c s' with
           | l :: ls => (x :: l) :: ls
           | [] => [[x]]
           end
  end.

(** [s.startswith(p)] *)
Fixpoint starts_with (p s : text) : bool :=
  match p with
  | [] => true
  | a :: p' =>
      match s with
      | [] => false
      | b :: s' => bool_decide (a = b) && starts_with p' s'
      end
  end.

(** [p in s] *)
Fixpoint contains (p s : text) : bool :=
  starts_with p s ||
  match s with
  | [] => false
  | _ :: s' => contains p s'
  end.

(** [str.isspace] on the code points below 256. *)
Definition py_isspace (c : ascii) : bool :=
  let n := nat_of_ascii c in
  ((9 <=? n) && (n <=? 13)) || ((28 <=? n) && (n <=? 32))
  || (n =? 133) || (n =? 160).

Fixpoint lstrip (s : text) : text :=
  match s with
  | [] => []
  | c :: s' => if py_isspace c then lstrip s' else s
  end.

Definition rstrip (s : text) : text := reverse (lstrip (reverse s)).

(** [s.strip()] *)
Definition strip (s : text) : text := rstrip (lstrip s).

(** The scan of [s.replace(old, new)] for a non-empty [old]: [skip] counts
    the characters of the occurrence just replaced that are still to be
    passed over. *)
Fixpoint replace_scan (old new : text) (skip : nat) (s : text) : text :=
  match skip with
  | S n =>
      match s with
      | [] => []
      | _ :: s' => replace_scan old new n s'
      end
  | 0 =>
      match s with
      | [] => []
      | c :: s' =>
          if starts_with old s
          then new ++ replace_scan old new (pred (length old)) s'
          else c :: replace_scan old new 0 s'
      end
  end.

(** [s.replace(old, new)]: every occurrence, left to right, without
    overlap; an empty [old] matches before every character and at the
    end. *)
Definition str_replace (old new s : text) : text :=
  match old with
  | [] => new ++ flat_map (λ c, c :: new) s
  | _ :: _ => replace_scan old new 0 s
  end.

(** Truth value of a string in a condition. *)
Definition truthy (s : text) : bool :=
  match s with
  | [] => false
  | _ :: _ => true
  end.

End Py.

Export Py.

(** ** The fragment of [re] the patterns are written in *)

Module Re.

(** A set of characters: [.] under [re.DOTALL], [\d], one character. *)
Inductive cclass :=
| CAny
| CDigit
| CChar (c : ascii).

Definition is_digit (c : ascii) : bool :=
  (48 <=? nat_of_ascii c) && (nat_of_ascii c <=? 57).

Definition in_class (cl : cclass) (c : ascii) : bool :=
  match cl with
  | CAny => true
  | CDigit => is_digit c
  | CChar d => bool_decide (c = d)
  end.

Inductive regex :=
| Chr (cl : cclass)              (* one character of the class *)
| Eps                            (* the empty pattern *)
| Seq (a b : regex)              (* ab *)
| Alt (a b : regex)              (* a|b *)
| LazyStar (cl : cclass)         (* cl*? *)
| MinRep (n : nat) (cl : cclass) (* cl{n,}, greedy; cl+ is cl{1,} *)
| Ahead (a : regex)              (* (?=a) *)
| Eos.                           (* $ without re.MULTILINE *)

(** The matcher works on what is left of the subject and passes what is left
    after a match to its continuation; [None] makes it backtrack. *)
Definition cont := text -> option text.

Fixpoint lazy_star (cl : cclass) (s : text) (k : cont) : option text :=
  match k s with
  | Some r => Some r
  | None =>
      match s with
      | [] => None
      | c :: s' => if in_class cl c then lazy_star cl s' k else None
      end
  end.

Fixpoint min_rep (cl : cclass) (n : nat) (s : text) (k : cont) : option text :=
  let stop := match n with 0 => k s | S _ => None end in
  match s with
  | [] => stop
  | c :: s' =>
      if in_class cl c then
        match min_rep cl (pred n) s' k with
        | Some r => Some r
        | None => stop
        end
      else stop
  end.

Fixpoint rmatch (r : regex) (s : text) (k : cont) : option text :=
  match r with
  | Chr cl =>
      match s with
      | [] => None
      | c :: s' => if in_class cl c then k s' else None
      end
  | Eps => k s
  | Seq a b => rmatch a s (λ s', rmatch b s' k)
  | Alt a b =>
      match rmatch a s k with
      | Some r => Some r
      | None => rmatch b s k
      end
  | LazyStar cl => lazy_star cl s k
  | MinRep n cl => min_rep cl n s k
  | Ahead a =>
      match rmatch a s Some with
      | Some _ => k s
      | None => None
      end
  | Eos =>
      match s with
      | [] => k s
      | c :: s' =>
          match s' with
          | [] => if bool_decide (c = nl) then k s else None
          | _ :: _ => None
          end
      end
  end.

(** Length of the match that starts at the head of [s], if there is one. *)
Definition match_at (r : regex) (s : text) : option nat :=
  (λ rest, length s - length rest) <$> rmatch r s Some.

(** The same, for a match that may not be empty. *)
Definition match_nonempty_at (r : regex) (s : text) : option nat :=
  (λ rest, length s - length rest) <$>
    rmatch r s (λ rest, if decide (length rest < length s) then Some rest else None).

(** [re.search(r, s)]: offset and length of the leftmost match. *)
Fixpoint re_search (r : regex) (s : text) : option (nat * nat) :=
  match match_at r s with
  | Some n => Some (0, n)
  | None =>
      match s with
      | [] => None
      | _ :: s' => (λ p, (S p.1, p.2)) <$> re_search r s'
      end
  end.

(** The scan of [re.sub]: [skip] counts the characters of the match just
    replaced that are still to be passed over.  After an empty match the
    search resumes at the same place for a match that is not empty, and
    copies one character when there is none. *)
Fixpoint sub_scan (r : regex) (repl : text) (skip : nat) (s : text) : text :=
  match skip with
  | S n =>
      match s with
      | [] => []
      | _ :: s' => sub_scan r repl n s'
      end
  | 0 =>
      let copy :=
        match s with
        | [] => []
        | c :: s' => c :: sub_scan r repl 0 s'
        end in
      let jump n :=
        match s with
        | [] => []
        | _ :: s' => sub_scan r repl n s'
        end in
      match match_at r s with
      | None => copy
      | Some (S n) => repl ++ jump n
      | Some 0 =>
          repl ++ match match_nonempty_at r s with
                  | Some (S n) => repl ++ jump n
                  | _ => copy
                  end
      end
  end.

(** [re.sub(r, repl, s)] for a replacement that holds no backslash, which
    [re] therefore inserts as it is. *)
Definition re_sub (r : regex) (repl s : text) : text := sub_scan r repl 0 s.

(** A literal run of characters, the sequence of a list of patterns, [cl+]. *)
Fixpoint lit (t : text) : regex :=
  match t with
  | [] => Eps
  | c :: t' => Seq (Chr (CChar c)) (lit t')
  end.

Definition seqs (rs : list regex) : regex := foldr Seq Eps rs.

Definition plus (cl : cclass) : regex := MinRep 1 cl.

(** A pattern that cannot match the empty string. *)
Fixpoint consumes (r : regex) : bool :=
  match r with
  | Chr _ => true
  | Eps => false
  | Seq a b => consumes a || consumes b
  | Alt a b => consumes a && consumes b
  | LazyStar _ => false
  | MinRep n _ => bool_decide (0 < n)
  | Ahead _ => false
  | Eos => false
  end.

End Re.

Export Re.

(** ** Files, console and the exceptions the scripts can meet *)

Module OS.

(** What the scripts print.  The constructors stand for the lines of text;
    the ones with an argument are the f-strings. *)
Inductive message :=
| MsgCleaned          (* "✓ Cleaned up planfiles.mdx" *)
| MsgRemovedCiCd      (* "  - Removed unvalidated CI/CD examples" *)
| MsgEnhanced         (* "  - Enhanced JSON/YAML planfile section with security tools" *)
| MsgFocused          (* "  - Focused on why, when, and how to use planfiles" *)
| MsgAddedExamples    (* "  - Added practical command examples" *)
| MsgUpdating         (* "Updating Terraform documentation files..." *)
| MsgChecking (filename : string)     (* "Checking {filename}..." *)
| MsgNotFound (filename : string)     (* "  ⚠️  File not found: {filename}" *)
| MsgUpdated (filename : string)      (* "  ✅ Updated {filename}" *)
| MsgNoChanges (filename : string)    (* "  ⏭️  No changes needed for {filename}" *)
| MsgUpdatedCount (updated_count : nat) (* "\n✅ Updated {updated_count} files" *)
| MsgRemovedAnalysis. (* "🧹 Removed temporary analysis file" *)

Inductive event :=
| EvWrite (path : string) (data : text)
| EvRemove (path : string)
| EvPrint (m : message).

Inductive exn :=
| FileNotFoundError (path : string).

Inductive result (A : Type) :=
| Ok (a : A)
| Raise (e : exn).
Arguments Ok {A} a.
Arguments Raise {A} e.

(** The outcome of a run: its result, the disk it leaves and what it did, in
    order.  An exception nobody catches ends the run; the disk and the log
    are as they were when it was raised. *)
Record outcome (A : Type) := Outcome {
  res : result A;
  disk : gmap string text;
  log : list event
}.
Arguments Outcome {A} res disk log.
Arguments res {A} o.
Arguments disk {A} o.
Arguments log {A} o.

Definition M (A : Type) := gmap string text -> outcome A.

Definition ret {A} (a : A) : M A := λ fs, Outcome (Ok a) fs [].

Definition bind {A B} (f : A -> M B) (m : M A) : M B :=
  λ fs,
    let o := m fs in
    match res o with
    | Raise e => Outcome (Raise e) (disk o) (log o)
    | Ok a =>
        let o' := f a (disk o) in
        Outcome (res o') (disk o') (log o ++ log o')
    end.

#[global] Instance M_ret : MRet M := @ret.
#[global] Instance M_bind : MBind M := @bind.

(** [os.path.exists(path)] *)
Definition path_exists (path : string) : M bool :=
  λ fs, Outcome (Ok (bool_decide (is_Some (fs !! path)))) fs [].

(** [with open(path, 'r') as f: f.read()] *)
Definition read_file (path : string) : M text :=
  λ fs,
    match fs !! path with
    | Some data => Outcome (Ok data) fs []
    | None => Outcome (Raise (FileNotFoundError path)) fs []
    end.

(** [with open(path, 'w') as f: f.write(data)] *)
Definition write_file (path : string) (data : text) : M unit :=
  λ fs, Outcome (Ok tt) (<[path := data]> fs) [EvWrite path data].

(** [os.remove(path)] *)
Definition remove (path : string) : M unit :=
  λ fs,
    match fs !! path with
    | Some _ => Outcome (Ok tt) (delete path fs) [EvRemove path]
    | None => Outcome (Raise (FileNotFoundError path)) fs []
    end.

(** [print(m)] *)
Definition print (m : message) : M unit :=
  λ fs, Outcome (Ok tt) fs [EvPrint m].

(** [os.path.join(a, b)] *)
Definition path_join (a b : string) : string :=
  match b with
  | String "/" _ => b
  | _ =>
      match reverse (String.list_ascii_of_string a) with
      | [] => b
      | c :: _ => if bool_decide (c = "/"%char) then a +:+ b else a +:+ "/" +:+ b
      end
  end.

Definition is_write (e : event) : bool :=
  match e with
  | EvWrite _ _ => true
  | _ => false
  end.

Definition is_remove (e : event) : bool :=
  match e with
  | EvRemove _ => true
  | _ => false
  end.

End OS.

Export OS.

(** ** clean_planfiles_doc.py *)

Module CleanPlanfiles.

Definition file_path : string :=
  "/Users/erik/Dev/cloudposse/tools/atmos/.conductor/custom-planfile/website/docs/core-concepts/terraform/planfiles.mdx".

(** [r'## CI/CD Integration.*?(?=## |$)'] *)
Definition ci_cd_pattern : regex :=
  seqs [ lit (txt "## CI/CD Integration");
         LazyStar CAny;
         Ahead (Alt (lit (txt "## ")) Eos) ].

(** [r'## Alternative: JSON/YAML Planfiles.*?This performs a semantic
    comparison of the plan data structures, not a naive text diff\.\n'] *)
Definition old_alternative_section : regex :=
  seqs [ lit (txt "## Alternative: JSON/YAML Planfiles");
         LazyStar CAny;
         lit (txt "This performs a semantic comparison of the plan data structures, not a naive text diff.");
         lit [nl] ].

(** [r'### \d+\. Use Planfiles in Production.*?(?=### \d+\.|## |$)'] *)
Definition production_pattern : regex :=
  seqs [ lit (txt "### "); plus CDigit;
         lit (txt ". Use Planfiles in Production");
         LazyStar CAny;
         Ahead (Alt (seqs [lit (txt "### "); plus CDigit; lit (txt ".")])
                    (Alt (lit (txt "## ")) Eos)) ].

(** [r'## Best Practices.*?(?=## |$)'] *)
Definition old_practices : regex :=
  seqs [ lit (txt "## Best Practices");
         LazyStar CAny;
         Ahead (Alt (lit (txt "## ")) Eos) ].

(** [r'For GitLab-managed.*?```\n'] *)
Definition gitlab_pattern : regex :=
  seqs [ lit (txt "For GitLab-managed");
         LazyStar CAny;
         lit (txt "```");
         lit [nl] ].

(** [r'\n{3,}'] *)
Definition blank_lines_pattern : regex := MinRep 3 (CChar nl).

(** The replacement text of lines 16-92, one entry per line. *)
Definition new_alternative_section : text :=
  unlines [
    txt "## Working with Planfiles in Practice";
    [];
    txt "### Binary Planfiles (Native Terraform)";
    [];
    txt "When using supported backends, Atmos automatically generates binary planfiles:";
    [];
    txt "```bash";
    txt "# Atmos generates: dev-vpc.planfile";
    txt "atmos terraform plan vpc -s dev";
    [];
    txt "# Apply the generated planfile";
    txt "atmos terraform apply vpc -s dev --from-plan";
    [];
    txt "# Or specify a custom planfile name";
    txt "atmos terraform plan vpc -s dev -out=my-custom.tfplan";
    txt "atmos terraform apply vpc -s dev --planfile my-custom.tfplan";
    txt "```";
    [];
    txt "### JSON/YAML Planfiles with `atmos terraform generate planfile`";
    [];
    txt "For enhanced security scanning, policy validation, or when binary planfiles aren't suitable, use Atmos's JSON/YAML planfile generation:";
    [];
    txt "```bash";
    txt "# Generate JSON planfile for security scanning";
    txt "atmos terraform generate planfile vpc -s dev --file-template plan-{{.stack}}-{{.component}}.json";
    [];
    txt "# Generate YAML planfile for human review";
    txt "atmos terraform generate planfile vpc -s dev --file-template plan-{{.stack}}-{{.component}}.yaml";
    txt "```";
    [];
    txt "#### Integration with Security and Compliance Tools";
    [];
    txt "JSON planfiles enable integration with security scanning and policy tools:";
    [];
    txt "```bash";
    txt "# Generate JSON planfile for security scanning";
    txt "atmos terraform generate planfile vpc -s prod --file-template prod-vpc.json";
    [];
    txt "# Scan with Wiz.io or similar tools";
    txt "wiz-cli iac scan --format terraform-plan prod-vpc.json";
    [];
    txt "# Check with Open Policy Agent (OPA)";
    (txt "opa eval -d policies/ -i prod-vpc.json " ++ [dquote] ++ txt "data.terraform.deny[msg]" ++ [dquote]);
    [];
    txt "# Validate with Checkov";
    txt "checkov --framework terraform_plan -f prod-vpc.json";
    [];
    txt "# Analyze with Terrascan";
    txt "terrascan scan -i tfplan -f prod-vpc.json";
    txt "```";
    [];
    txt "Benefits of JSON/YAML planfiles:";
    txt "- **Security Scanning**: Integrate with tools like Wiz.io, Snyk, Checkov";
    txt "- **Policy as Code**: Validate with OPA, Sentinel, or custom policies";
    txt "- **Human Review**: YAML format is easy to read and review";
    txt "- **Version Control**: Can be safely committed (no binary data)";
    txt "- **Backend Independent**: Works with any backend, including those that don't support binary planfiles";
    txt "- **Audit Trail**: Creates reviewable record of planned changes";
    [];
    txt "### Comparing Planfiles with `atmos terraform plan-diff`";
    [];
    txt "Compare any two planfiles to understand differences:";
    [];
    txt "```bash";
    txt "# Compare two JSON planfiles";
    txt "atmos terraform plan-diff --file plan1.json --file2 plan2.json";
    [];
    txt "# Compare different formats";
    txt "atmos terraform plan-diff --file plan1.yaml --file2 plan2.json --format yaml";
    [];
    txt "# Compare binary planfile with JSON (after converting)";
    txt "atmos terraform generate planfile vpc -s dev --file-template current.json";
    txt "atmos terraform plan-diff --file baseline.json --file2 current.json";
    txt "```";
    [];
    txt "This performs a semantic comparison of the plan data structures, not a naive text diff.";
    []
  ].

(** The replacement text of lines 102-137, one entry per line. *)
Definition new_practices : text :=
  unlines [
    txt "## Best Practices";
    [];
    txt "### When to Use Planfiles";
    [];
    txt "**Use planfiles when:**";
    txt "- You need guaranteed consistency between plan and apply";
    txt "- Multiple team members review changes before applying";
    txt "- Compliance requires an audit trail of approved changes";
    txt "- You want to prevent drift between planning and execution";
    txt "- Running in automated pipelines where plans need approval";
    [];
    txt "**Skip planfiles when:**";
    txt "- Working in development environments with rapid iteration";
    txt "- Using backends that don't support them (Remote, Terraform Cloud)";
    txt "- Backend credentials would be embedded (HTTP backend)";
    txt "- Real-time infrastructure state is critical";
    [];
    txt "### Security Considerations";
    [];
    txt "1. **Never commit binary planfiles to version control** - They may contain sensitive data";
    txt "2. **Use environment variables for backend authentication** - Avoid `-backend-config` with sensitive values";
    txt "3. **Consider JSON planfiles for sensitive environments** - Use `atmos terraform generate planfile` for reviewable, scannable output";
    txt "4. **Set appropriate file permissions** - Planfiles should be readable only by authorized users";
    txt "5. **Clean up old planfiles** - Remove after applying or when no longer needed";
    [];
    txt "### Choosing the Right Approach";
    [];
    txt "| Scenario | Recommended Approach | Command |";
    txt "|----------|---------------------|---------|";
    txt "| Production deployment with approval | Binary planfile | `atmos terraform plan vpc -s prod` |";
    txt "| Security scanning required | JSON planfile | `atmos terraform generate planfile vpc -s prod --file-template plan.json` |";
    txt "| Using HTTP backend | Skip planfiles | `atmos terraform plan vpc -s prod --skip-planfile` |";
    txt "| Rapid development iteration | Skip planfiles | `atmos terraform deploy vpc -s dev` |";
    txt "| Compliance audit required | JSON planfile + version control | `atmos terraform generate planfile` with Git |";
    [];
    []
  ].

(** Lines 9 to 145: the six substitutions, each on the result of the one
    before. *)
Definition transform (content : text) : text :=
  let content := re_sub ci_cd_pattern [] content in
  let content := re_sub old_alternative_section new_alternative_section content in
  let content := re_sub production_pattern [] content in
  let content := re_sub old_practices new_practices content in
  let content := re_sub gitlab_pattern [] content in
  let content := re_sub blank_lines_pattern [nl; nl] content in
  content.

(** What lines 150 to 154 print. *)
Definition clean_prints : list event :=
  [EvPrint MsgCleaned; EvPrint MsgRemovedCiCd; EvPrint MsgEnhanced;
   EvPrint MsgFocused; EvPrint MsgAddedExamples].

(** The script, top to bottom. *)
Definition script : M unit :=
  content ← read_file file_path;
  write_file file_path (transform content);;
  print MsgCleaned;;
  print MsgRemovedCiCd;;
  print MsgEnhanced;;
  print MsgFocused;;
  print MsgAddedExamples.

(** The steps of the pipeline as the page's maintainers name them. *)
Definition remove_ci_cd_section : text -> text := re_sub ci_cd_pattern [].
Definition replace_alternative_section : text -> text :=
  re_sub old_alternative_section new_alternative_section.
Definition remove_production_section : text -> text := re_sub production_pattern [].
Definition replace_best_practices : text -> text := re_sub old_practices new_practices.
Definition remove_gitlab_passages : text -> text := re_sub gitlab_pattern [].

(** Collapsing runs of three or more newlines to two, without [re]: [run]
    counts the newlines read since the last other character; a run is
    written out when it ends, cut to two when it has three or more. *)
Fixpoint leading_newlines (s : text) : nat :=
  match s with
  | [] => 0
  | c :: s' => if bool_decide (c = nl) then S (leading_newlines s') else 0
  end.

Definition flush_run (run : nat) : text :=
  replicate (if decide (3 <= run) then 2 else run) nl.

Fixpoint collapse_runs (run : nat) (s : text) : text :=
  match s with
  | [] => flush_run run
  | c :: s' =>
      if bool_decide (c = nl) then collapse_runs (S run) s'
      else flush_run run ++ c :: collapse_runs 0 s'
  end.

Definition collapse_blank_lines : text -> text := collapse_runs 0.

End CleanPlanfiles.

(** ** update_terraform_docs.py *)

Module UpdateTerraformDocs.

Definition base_path : string :=
  "/Users/erik/Dev/cloudposse/tools/atmos/.conductor/custom-planfile/website/docs/cli/commands/terraform".

(** The value of one entry of [updates]; every entry has both keys. *)
Record updates_dict := {
  purpose_addon : text;
  info_box : text
}.

Definition updates : list (string * updates_dict) := [
  ("terraform-fmt.mdx",
   {| purpose_addon := txt " This command is a direct passthrough to the native `terraform fmt` command.";
      info_box := unlines [[];
        [];
        txt ":::info Atmos Behavior";
        txt "This is a pure passthrough command. Atmos does not perform automatic initialization, workspace management, or variable generation for `terraform fmt`. The command is executed directly in the component directory.";
        txt ":::"] |});
  ("terraform-version.mdx",
   {| purpose_addon := txt " This command is a direct passthrough to the native `terraform version` command.";
      info_box := unlines [[];
        [];
        txt ":::info Atmos Behavior";
        txt "This is a pure passthrough command. Atmos does not perform any special processing for `terraform version`. The command is executed directly without workspace management or variable generation.";
        txt ":::"] |});
  ("terraform-login.mdx",
   {| purpose_addon := [];
      info_box := unlines [[];
        [];
        txt ":::info Atmos Behavior";
        txt "This is a pure passthrough command. Atmos does not perform automatic initialization or workspace management for `terraform login`. The command is executed directly to manage Terraform Cloud credentials.";
        txt ":::"] |});
  ("terraform-logout.mdx",
   {| purpose_addon := [];
      info_box := unlines [[];
        [];
        txt ":::info Atmos Behavior";
        txt "This is a pure passthrough command. Atmos does not perform automatic initialization or workspace management for `terraform logout`. The command is executed directly to manage Terraform Cloud credentials.";
        txt ":::"] |});
  ("terraform-console.mdx",
   {| purpose_addon := [];
      info_box := unlines [[];
        [];
        txt ":::info Atmos Behavior";
        txt "Atmos provides standard setup for this command including automatic `terraform init`, workspace selection, and variable file generation. The console itself operates as native Terraform.";
        txt ":::"] |});
  ("terraform-output.mdx",
   {| purpose_addon := [];
      info_box := unlines [[];
        [];
        txt ":::info Atmos Behavior";
        txt "Atmos provides standard setup for this command including automatic `terraform init`, workspace selection, and variable file generation. The output retrieval itself is handled by native Terraform.";
        txt ":::"] |});
  ("terraform-show.mdx",
   {| purpose_addon := [];
      info_box := unlines [[];
        [];
        txt ":::info Atmos Behavior";
        txt "Atmos provides standard setup for this command including automatic `terraform init` and workspace selection. The show operation itself is handled by native Terraform.";
        txt ":::"] |});
  ("terraform-providers.mdx",
   {| purpose_addon := [];
      info_box := unlines [[];
        [];
        txt ":::info Atmos Behavior";
        txt "Atmos provides standard setup for this command including automatic `terraform init` and workspace selection. The provider information display is handled by native Terraform.";
        txt ":::"] |});
  ("terraform-graph.mdx",
   {| purpose_addon := [];
      info_box := unlines [[];
        [];
        txt ":::info Atmos Behavior";
        txt "Atmos provides standard setup for this command including automatic `terraform init` and workspace selection. The graph generation itself is handled by native Terraform.";
        txt ":::"] |});
  ("terraform-get.mdx",
   {| purpose_addon := [];
      info_box := unlines [[];
        [];
        txt ":::info Atmos Behavior";
        txt "Atmos provides standard setup for this command including automatic `terraform init` and workspace selection. The module download operation is handled by native Terraform.";
        txt ":::"] |});
  ("terraform-force-unlock.mdx",
   {| purpose_addon := [];
      info_box := unlines [[];
        [];
        txt ":::info Atmos Behavior";
        txt "Atmos provides standard setup for this command including automatic `terraform init` and workspace selection. The unlock operation itself is handled by native Terraform.";
        txt ":::"] |});
  ("terraform-test.mdx",
   {| purpose_addon := [];
      info_box := unlines [[];
        [];
        txt ":::info Atmos Behavior";
        txt "Atmos provides standard setup for this command including automatic `terraform init` and workspace selection. The test execution is handled by native Terraform.";
        txt ":::"] |});
  ("terraform-metadata.mdx",
   {| purpose_addon := [];
      info_box := unlines [[];
        [];
        txt ":::info Atmos Behavior";
        txt "Atmos provides standard setup for this command including automatic `terraform init` and workspace selection. The metadata operations are handled by native Terraform.";
        txt ":::"] |});
  ("terraform-modules.mdx",
   {| purpose_addon := [];
      info_box := unlines [[];
        [];
        txt ":::info Atmos Behavior";
        txt "Atmos provides standard setup for this command including automatic `terraform init` and workspace selection. The module listing is handled by native Terraform.";
        txt ":::"] |});
  ("terraform-validate.mdx",
   {| purpose_addon := [];
      info_box := unlines [[];
        [];
        txt ":::info Atmos Behavior";
        txt "Atmos provides standard setup for this command including automatic `terraform init` and workspace selection. The validation itself is performed by native Terraform.";
        txt ":::"] |});
  ("terraform-state.mdx",
   {| purpose_addon := [];
      info_box := unlines [[];
        [];
        txt ":::info Atmos Behavior";
        txt "Atmos provides standard setup for this command including automatic `terraform init` and workspace selection. Additionally, Atmos blocks state modifications if the component is locked (`metadata.locked: true`). The state operations themselves are handled by native Terraform.";
        txt ":::"] |});
  ("terraform-taint.mdx",
   {| purpose_addon := [];
      info_box := unlines [[];
        [];
        txt ":::info Atmos Behavior";
        txt "Atmos provides standard setup for this command including automatic `terraform init`, workspace selection, and variable file generation. Additionally, Atmos blocks this operation if the component is locked (`metadata.locked: true`). The taint operation itself is handled by native Terraform.";
        txt ":::"] |});
  ("terraform-untaint.mdx",
   {| purpose_addon := [];
      info_box := unlines [[];
        [];
        txt ":::info Atmos Behavior";
        txt "Atmos provides standard setup for this command including automatic `terraform init`, workspace selection, and variable file generation. Additionally, Atmos blocks this operation if the component is locked (`metadata.locked: true`). The untaint operation itself is handled by native Terraform.";
        txt ":::"] |});
  ("terraform-import.mdx",
   {| purpose_addon := [];
      info_box := unlines [[];
        [];
        txt ":::info Atmos Enhancements";
        txt "Atmos provides several enhancements for the import command:";
        txt "- Automatic `terraform init` before importing";
        txt "- Workspace selection and management";
        txt "- Variable file generation and passing";
        txt "- **Automatic AWS_REGION environment variable** setting based on the component's region variable";
        txt "- Component locking support (blocks import if `metadata.locked: true`)";
        txt ":::"] |});
  ("terraform-refresh.mdx",
   {| purpose_addon := [];
      info_box := unlines [[];
        [];
        txt ":::info Atmos Enhancements";
        txt "Atmos enhances the refresh command with:";
        txt "- Automatic `terraform init` before refreshing";
        txt "- Workspace selection and management";
        txt "- **Automatic variable file generation and passing**";
        txt "- Backend configuration";
        txt "- Component validation";
        txt ":::"] |});
  ("terraform-destroy.mdx",
   {| purpose_addon := [];
      info_box := unlines [[];
        [];
        txt ":::info Atmos Enhancements";
        txt "Atmos enhances the destroy command with:";
        txt "- Automatic `terraform init` before destroying";
        txt "- Workspace selection and management";
        txt "- **Automatic variable file generation and passing**";
        txt "- Backend configuration";
        txt "- Component validation and locking support";
        txt ":::"] |})
].

Definition analysis_file : string :=
  "/Users/erik/Dev/cloudposse/tools/atmos/.conductor/custom-planfile/terraform_command_analysis.md".

Definition purpose_note : text := unlines [txt ":::note purpose"; txt "Use this command"].
Definition screengrab_anchor : text := unlines [txt ":::"; []; txt "<Screengrab"].
Definition this_command : text := txt "This command".

(** [filepath] of line 96. *)
Definition target (filename : string) : string := path_join base_path filename.

(** Lines 107 to 116. *)
Definition add_purpose (d : updates_dict) (content : text) : text :=
  if truthy (purpose_addon d) then
    let content := str_replace purpose_note purpose_note content in
    str_replace screengrab_anchor (purpose_addon d ++ [nl] ++ screengrab_anchor) content
  else content.

(** The body of the [for] loop of lines 125 to 131, on the pair
    ([new_lines], [added_info]).  The guard [i > 0] keeps [lines[i-1]] from
    reading the last line; past it the index is in range. *)
Definition info_loop_body (box : text) (lines : list text)
    (st : list text * bool) (i : nat) (line : text) : list text * bool :=
  let '(new_lines, added_info) := st in
  let new_lines := new_lines ++ [line] in
  if negb added_info && bool_decide (0 < i)
     && starts_with this_command (default [] (lines !! (i - 1)))
     && bool_decide (line = [])
  then (new_lines ++ [strip box], true)
  else (new_lines, added_info).

(** [for i, line in enumerate(lines)], from index [i] on. *)
Fixpoint info_loop (box : text) (lines : list text)
    (st : list text * bool) (i : nat) (rest : list text) : list text * bool :=
  match rest with
  | [] => st
  | line :: rest' => info_loop box lines (info_loop_body box lines st i line) (S i) rest'
  end.

(** Lines 119 to 134. *)
Definition add_info_box (d : updates_dict) (content : text) : text :=
  if truthy (info_box d) then
    let lines := str_split nl content in
    let '(new_lines, added_info) := info_loop (info_box d) lines ([], false) 0 lines in
    if added_info then str_join [nl] new_lines else content
  else content.

(** What [update_file] makes of the content it has read. *)
Definition transform (d : updates_dict) (content : text) : text :=
  add_info_box d (add_purpose d content).

Definition update_file (filename : string) (d : updates_dict) : M bool :=
  let filepath := target filename in
  found ← path_exists filepath;
  if negb found then
    print (MsgNotFound filename);;
    mret false
  else
    content ← read_file filepath;
    let original_content := content in
    let content := add_purpose d content in
    let content := add_info_box d content in
    if bool_decide (content ≠ original_content) then
      write_file filepath content;;
      mret true
    else mret false.

(** The loop of lines 145 to 151 over the entries still to visit. *)
Fixpoint update_loop (entries : list (string * updates_dict)) (updated_count : nat) : M nat :=
  match entries with
  | [] => mret updated_count
  | (filename, d) :: entries' =>
      print (MsgChecking filename);;
      updated ← update_file filename d;
      if (updated : bool) then
        print (MsgUpdated filename);;
        update_loop entries' (updated_count + 1)
      else
        print (MsgNoChanges filename);;
        update_loop entries' updated_count
  end.

(** Lines 143 to 159, for a table [entries]. *)
Definition script_for (entries : list (string * updates_dict)) : M unit :=
  print MsgUpdating;;
  updated_count ← update_loop entries 0;
  print (MsgUpdatedCount updated_count);;
  found ← path_exists analysis_file;
  if (found : bool) then
    remove analysis_file;;
    print MsgRemovedAnalysis
  else mret tt.

(** The script, top to bottom: the table is [updates]. *)
Definition script : M unit := script_for updates.

(** Whether [update_file] on this entry finds its file and changes it. *)
Definition changes (fs : gmap string text) (e : string * updates_dict) : bool :=
  match fs !! target e.1 with
  | Some content => bool_decide (transform e.2 content ≠ content)
  | None => false
  end.

(** [update_file] without the replacement of lines 108 to 111. *)
Definition add_purpose_simplified (d : updates_dict) (content : text) : text :=
  if truthy (purpose_addon d) then
    str_replace screengrab_anchor (purpose_addon d ++ [nl] ++ screengrab_anchor) content
  else content.

Definition update_file_simplified (filename : string) (d : updates_dict) : M bool :=
  let filepath := target filename in
  found ← path_exists filepath;
  if negb found then
    print (MsgNotFound filename);;
    mret false
  else
    content ← read_file filepath;
    let original_content := content in
    let content := add_purpose_simplified d content in
    let content := add_info_box d content in
    if bool_decide (content ≠ original_content) then
      write_file filepath content;;
      mret true
    else mret false.

(** Where the info box goes, said without the loop: after the first empty
    line that follows a line starting with "This command". *)
Definition anchor_at (lines : list text) (i : nat) : bool :=
  bool_decide (0 < i)
  && starts_with this_command (default [] (lines !! (i - 1)))
  && bool_decide (lines !! i = Some []).

(** The first anchor among the [k] indices from [i] on. *)
Definition find_from (lines : list text) (i k : nat) : option nat :=
  list_find (λ j, anchor_at lines j = true) (seq i k) ≫= λ p, Some p.2.

Definition first_anchor (lines : list text) : option nat :=
  find_from lines 0 (length lines).

Definition insert_info_box_once (box : text) (content : text) : text :=
  let lines := str_split nl content in
  match first_anchor lines with
  | Some i => str_join [nl] (take (S i) lines ++ [strip box] ++ drop (S i) lines)
  | None => content
  end.

End UpdateTerraformDocs.

(** ** Reading the record of a run *)

Module Report.

(** The file name of a "Checking ..." line. *)
Definition checked (e : event) : option string :=
  match e with
  | EvPrint (MsgChecking filename) => Some filename
  | _ => None
  end.

(** The file name of an "Updated ..." or a "No changes needed for ..." line,
    with [true] for the first. *)
Definition verdict (e : event) : option (string * bool) :=
  match e with
  | EvPrint (MsgUpdated filename) => Some (filename, true)
  | EvPrint (MsgNoChanges filename) => Some (filename, false)
  | _ => None
  end.

(** The file name of a "File not found: ..." line. *)
Definition warned (e : event) : option string :=
  match e with
  | EvPrint (MsgNotFound filename) => Some filename
  | _ => None
  end.

(** The path and the data of a write. *)
Definition written (e : event) : option (string * text) :=
  match e with
  | EvWrite path data => Some (path, data)
  | _ => None
  end.

(** The message of a printed line. *)
Definition printed (e : event) : option message :=
  match e with
  | EvPrint m => Some m
  | _ => None
  end.

End Report.

Export Report.

(** ** Paths *)

Module Paths.

(** [os.path.isabs(path)] *)
Definition isabs (path : string) : bool :=
  match path with
  | String "/" _ => true
  | _ => false
  end.

End Paths.

Export Paths.

(** ** The section patterns, said without [re] *)

Module Sections.

(** [heading.*?(?=## |$)] under [re.DOTALL]: the shape of [ci_cd_pattern]
    and of [old_practices]. *)
Definition section_pattern (heading : text) : regex :=
  seqs [ lit heading; LazyStar CAny; Ahead (Alt (lit (txt "## ")) Eos) ].

(** Where [(?=## |$)] holds: before "## ", at the end of the text, and
    before a newline that ends the text. *)
Definition section_end (s : text) : bool :=
  starts_with (txt "## ") s || bool_decide (s = []) || bool_decide (s = [nl]).

(** The number of characters before the first place where it holds. *)
Fixpoint section_body (s : text) : nat :=
  if section_end s then 0
  else match s with
       | [] => 0
       | _ :: s' => S (section_body s')
       end.

(** The length of the section at the head of [s]: the heading and what
    follows it up to the first place where the section ends. *)
Definition section_at (heading s : text) : option nat :=
  if starts_with heading s
  then Some (length heading + section_body (drop (length heading) s))
  else None.

(** No occurrence of [heading] in [w ++ s] starts within [w]. *)
Definition no_start (heading w s : text) : Prop :=
  ∀ w1 w2, w = w1 ++ w2 → w2 ≠ [] → starts_with heading (w2 ++ s) = false.

(** No end of [heading] but the whole of it can stand where a section
    ends. *)
Definition no_junction (heading : text) : Prop :=
  ∀ k t, 0 < k < length heading → section_end t = true →
         starts_with (drop k heading) t = false.

End Sections.

Export Sections.

(** ** The delimited patterns, said without [re] *)

Module Delimited.

(** [heading.*?closing\n] under [re.DOTALL]: the shape of
    [old_alternative_section] and of [gitlab_pattern]. *)
Definition delimited_pattern (heading closing : text) : regex :=
  seqs [ lit heading; LazyStar CAny; lit closing; lit [nl] ].

(** [s.find(p)]: the number of characters before the first occurrence of
    [p] in [s], [None] for Python's [-1]. *)
Fixpoint find_text (p s : text) : option nat :=
  if starts_with p s then Some 0
  else match s with
       | [] => None
       | _ :: s' => S <$> find_text p s'
       end.

(** The length of the passage at the head of [s]: the heading, what follows
    it up to the first [ending], and [ending]. *)
Definition delimited_at (heading ending s : text) : option nat :=
  if starts_with heading s
  then (λ n, length heading + n + length ending)
         <$> find_text ending (drop (length heading) s)
  else None.

End Delimited.

Export Delimited.

(** ** The pattern of the numbered section, said without [re] *)

Module Numbered.

(** The number of digits at the head of [s]. *)
Fixpoint leading_digits (s : text) : nat :=
  match s with
  | [] => 0
  | c :: s' => if is_digit c then S (leading_digits s') else 0
  end.

(** The length of "### ", one digit or more and [after] at the head of
    [s]. *)
Definition numbered_at (after s : text) : option nat :=
  if starts_with (txt "### ") s
     && bool_decide (0 < leading_digits (drop 4 s))
     && starts_with after (drop (4 + leading_digits (drop 4 s)) s)
  then Some (4 + leading_digits (drop 4 s) + length after)
  else None.

(** Where [(?=### \d+\.|## |$)] holds. *)
Definition production_end (s : text) : bool :=
  bool_decide (is_Some (numbered_at (txt ".") s)) || section_end s.

(** The number of characters before the first place where it holds. *)
Fixpoint production_body (s : text) : nat :=
  if production_end s then 0
  else match s with
       | [] => 0
       | _ :: s' => S (production_body s')
       end.

(** The length of the numbered section at the head of [s]. *)
Definition production_at (s : text) : option nat :=
  match numbered_at (txt ". Use Planfiles in Production") s with
  | Some n => Some (n + production_body (drop n s))
  | None => None
  end.

End Numbered.

Export Numbered.

(** ** Counting occurrences *)

Module Count.

(** The scan of [s.count(old)] for a non-empty [old]: occurrences from left
    to right that do not overlap; [skip] counts the characters of the
    occurrence just counted that are still to be passed over. *)
Fixpoint count_scan (old : text) (skip : nat) (s : text) : nat :=
  match skip with
  | S n =>
      match s with
      | [] => 0
      | _ :: s' => count_scan old n s'
      end
  | 0 =>
      match s with
      | [] => 0
      | _ :: s' =>
          if starts_with old s
          then S (count_scan old (pred (length old)) s')
          else count_scan old 0 s'
      end
  end.

(** [s.count(old)] *)
Definition str_count (old s : text) : nat :=
  match old with
  | [] => S (length s)
  | _ :: _ => count_scan old 0 s
  end.

End Count.

Export Count.

(** ** The substitutions, said without [re] *)

Module Passages.

(** From left to right: where [passage_at] gives the length of a passage
    that starts at the place reached, write [repl] and pass over the
    passage; elsewhere copy the character.  [skip] counts the characters of
    the passage that are still to be passed over. *)
Fixpoint replace_passages (passage_at : text -> option nat) (repl : text)
    (skip : nat) (s : text) : text :=
  match skip with
  | S n =>
      match s with
      | [] => []
      | _ :: s' => replace_passages passage_at repl n s'
      end
  | 0 =>
      match s with
      | [] => []
      | c :: s' =>
          match passage_at s with
          | Some (S n) => repl ++ replace_passages passage_at repl n s'
          | _ => c :: replace_passages passage_at repl 0 s'
          end
      end
  end.

(** Cut every "## CI/CD Integration" with what follows it up to the first
    "## ", the end of the text or its last newline. *)
Definition cut_ci_cd : text -> text :=
  replace_passages (section_at (txt "## CI/CD Integration")) [] 0.

(** Put the new section where "## Alternative: JSON/YAML Planfiles" stands,
    up to the first sentence that closes it. *)
Definition put_working_with_planfiles : text -> text :=
  replace_passages
    (delimited_at (txt "## Alternative: JSON/YAML Planfiles")
       (txt "This performs a semantic comparison of the plan data structures, not a naive text diff." ++ [nl]))
    CleanPlanfiles.new_alternative_section 0.

(** Cut every numbered "Use Planfiles in Production" heading with what
    follows it up to the next numbered heading, the first "## ", the end of
    the text or its last newline. *)
Definition cut_production : text -> text :=
  replace_passages production_at [] 0.

(** Put the new text where "## Best Practices" stands, up to the first
    "## ", the end of the text or its last newline. *)
Definition put_best_practices : text -> text :=
  replace_passages (section_at (txt "## Best Practices"))
    CleanPlanfiles.new_practices 0.

(** Cut every "For GitLab-managed" with what follows it up to the first
    closing fence and its newline. *)
Definition cut_gitlab : text -> text :=
  replace_passages (delimited_at (txt "For GitLab-managed") (txt "```" ++ [nl])) [] 0.

(** The six steps in the order of the source. *)
Definition pipeline (content : text) : text :=
  CleanPlanfiles.collapse_blank_lines
    (cut_gitlab
      (put_best_practices
        (cut_production
          (put_working_with_planfiles
            (cut_ci_cd content))))).

End Passages.

Export Passages.

(** * Properties *)

(** ** The matcher and [re.sub] *)

Section re_facts.
Implicit Types (r : regex) (s repl : text) (k : cont) (cl : cclass).

Lemma lazy_star_sound cl s k x :
  lazy_star cl s k = Some x →
  ∃ n, n ≤ length s ∧ k (drop n s) = Some x.
Proof.
  induction s as [|c s IH]; simpl.
  - destruct (k []) eqn:E; [|done]. intros [= <-]. by exists 0.
  - destruct (k (c :: s)) eqn:E.
    + intros [= <-]. exists 0. split; [lia|done].
    + destruct (in_class cl c); [|done].
      intros (n & ? & ?)%IH. exists (S n). split; [lia|done].
Qed.

Lemma min_rep_sound cl m s k x :
  min_rep cl m s k = Some x →
  ∃ n, m ≤ n ∧ n ≤ length s ∧ k (drop n s) = Some x.
Proof.
  revert m. induction s as [|c s IH]; intros m; simpl.
  - destruct m; [|done]. intros ?. exists 0. repeat split; [lia..|done].
  - assert (match m with 0 => k (c :: s) | S _ => None end = Some x →
            ∃ n, m ≤ n ∧ n ≤ S (length s) ∧ k (drop n (c :: s)) = Some x) as Hstop.
    { destruct m; [|done]. intros ?. exists 0. repeat split; [lia..|done]. }
    destruct (in_class cl c); [|done].
    destruct (min_rep cl (pred m) s k) eqn:E; [|done].
    intros [= <-]. apply IH in E as (n & ? & ? & ?).
    exists (S n). repeat split; [lia|lia|done].
Qed.

Lemma rmatch_sound r s k x :
  rmatch r s k = Some x →
  ∃ n, n ≤ length s ∧ k (drop n s) = Some x ∧ (consumes r = true → 0 < n).
Proof.
  revert s k x. induction r as [cl| |a IHa b IHb|a IHa b IHb|cl|m cl|a IHa|];
    intros s k x; simpl.
  - destruct s as [|c s]; [done|]. destruct (in_class cl c); [|done].
    intros ?. exists 1. repeat split; [simpl; lia|done|lia].
  - intros ?. exists 0. repeat split; [lia|done|done].
  - intros (n & ? & (n' & ? & ? & ?)%IHb & ?)%IHa.
    rewrite length_drop in *. exists (n + n').
    rewrite <-drop_drop. repeat split; [lia|done|].
    intros [?|?]%orb_true_iff; [|]; naive_solver lia.
  - destruct (rmatch a s k) eqn:E.
    + intros [= <-]. apply IHa in E as (n & ? & ? & ?). exists n.
      repeat split; [done..|]. intros [??]%andb_true_iff. auto.
    + intros (n & ? & ? & ?)%IHb. exists n.
      repeat split; [done..|]. intros [??]%andb_true_iff. auto.
  - intros (n & ? & ?)%lazy_star_sound. exists n. done.
  - intros (n & ? & ? & ?)%min_rep_sound. exists n.
    repeat split; [done..|]. intros ?%bool_decide_eq_true. lia.
  - destruct (rmatch a s Some); [|done]. intros ?. exists 0. repeat split; [lia|done|done].
  - intros H. exists 0. repeat split; [lia| |done]. simpl.
    destruct s as [|c [|??]]; [done| |done]. by case_bool_decide.
Qed.

Lemma match_at_bounds r s n :
  match_at r s = Some n →
  n ≤ length s ∧ (consumes r = true → 0 < n).
Proof.
  unfold match_at. destruct (rmatch r s Some) as [rest|] eqn:E; [|done].
  intros [= <-]. apply rmatch_sound in E as (n & Hn & [= <-] & Hpos).
  rewrite length_drop. split; [lia|]. intros Hr. specialize (Hpos Hr). lia.
Qed.

Lemma sub_scan_skip r repl n s :
  n ≤ length s →
  sub_scan r repl n s = sub_scan r repl 0 (drop n s).
Proof.
  revert s. induction n as [|n IH]; intros s Hn; [by rewrite drop_0|].
  destruct s as [|c s]; simpl in *; [lia|]. apply IH. lia.
Qed.

(** One step of [re.sub] for a pattern that cannot match the empty string. *)
Lemma re_sub_step r repl s :
  consumes r = true →
  re_sub r repl s =
    match match_at r s with
    | Some n => repl ++ re_sub r repl (drop n s)
    | None =>
        match s with
        | [] => []
        | c :: s' => c :: re_sub r repl s'
        end
    end.
Proof.
  intros Hr. unfold re_sub. destruct s as [|c s]; simpl.
  - destruct (match_at r []) as [n|] eqn:E; [|done].
    apply match_at_bounds in E as [Hn Hpos]. simpl in *. specialize (Hpos Hr). lia.
  - destruct (match_at r (c :: s)) as [n|] eqn:E; [|done].
    apply match_at_bounds in E as [Hn Hpos]. specialize (Hpos Hr).
    destruct n as [|n]; [lia|]. rewrite sub_scan_skip; [done|simpl in Hn; lia].
Qed.

Lemma re_search_none r s :
  re_search r s = None →
  match_at r s = None ∧ match s with [] => True | _ :: s' => re_search r s' = None end.
Proof.
  destruct s as [|c s]; simpl; destruct (match_at _ _); try done.
  destruct (re_search r s); done.
Qed.

(** A pattern that matches nowhere leaves the text as it is. *)
Lemma re_sub_no_match r repl s :
  re_search r s = None → re_sub r repl s = s.
Proof.
  unfold re_sub. induction s as [|c s IH]; intros [Hm Hs]%re_search_none; simpl.
  - simpl in Hm. by rewrite Hm.
  - rewrite Hm. f_equal. by apply IH.
Qed.

End re_facts.

(** ** Runs of newlines *)

Section blank_lines.
Import CleanPlanfiles.
Implicit Types (s : text) (run : nat).

Lemma min_rep_newlines m s :
  min_rep (CChar nl) m s Some =
    if decide (m ≤ leading_newlines s) then Some (drop (leading_newlines s) s) else None.
Proof.
  revert m. induction s as [|c s IH]; intros m; simpl.
  - destruct m; by case_decide; try lia.
  - case_bool_decide as Hc; simpl.
    + rewrite IH. repeat case_decide; try lia; destruct m; try done; simpl in *; lia.
    + destruct m; by case_decide; try lia.
Qed.

Lemma match_at_blank_lines s :
  match_at blank_lines_pattern s =
    if decide (3 ≤ leading_newlines s) then Some (leading_newlines s) else None.
Proof.
  unfold match_at, blank_lines_pattern. simpl. rewrite min_rep_newlines.
  case_decide; [|done]. simpl. rewrite length_drop. f_equal.
  assert (leading_newlines s ≤ length s); [|lia].
  clear. induction s as [|c s IH]; simpl; [lia|]. case_bool_decide; lia.
Qed.

Lemma leading_newlines_drop s :
  leading_newlines (drop (leading_newlines s) s) = 0.
Proof.
  induction s as [|c s IH]; [done|]. simpl.
  case_bool_decide as Hc; [done|]. simpl. by rewrite bool_decide_eq_false_2.
Qed.

Lemma flush_run_S run :
  S run < 3 → flush_run (S run) = nl :: flush_run run.
Proof. intros ?. unfold flush_run. by repeat case_decide; try lia. Qed.

(** [re.sub] on the blank-line pattern, a run at a time. *)
Lemma re_sub_blank_run s :
  re_sub blank_lines_pattern [nl; nl] s =
    flush_run (leading_newlines s) ++
    re_sub blank_lines_pattern [nl; nl] (drop (leading_newlines s) s).
Proof.
  destruct (decide (3 ≤ leading_newlines s)) as [Hlong|Hshort].
  - rewrite (re_sub_step _ _ s) by done. rewrite match_at_blank_lines.
    rewrite decide_True by done. unfold flush_run. by rewrite decide_True.
  - induction s as [|c s IH]; [done|]. simpl in *.
    case_bool_decide as Hc; [|done]. subst c.
    rewrite (re_sub_step _ _ (nl :: s)) by done. rewrite match_at_blank_lines.
    simpl. rewrite decide_False by done.
    rewrite flush_run_S by lia. simpl. f_equal. apply IH. lia.
Qed.

Lemma re_sub_blank_other c s :
  c ≠ nl →
  re_sub blank_lines_pattern [nl; nl] (c :: s) =
    c :: re_sub blank_lines_pattern [nl; nl] s.
Proof.
  intros Hc. rewrite (re_sub_step _ _ (c :: s)) by done.
  rewrite match_at_blank_lines. simpl. rewrite bool_decide_eq_false_2 by done.
  by rewrite decide_False by lia.
Qed.

Lemma collapse_runs_run run s :
  collapse_runs run s =
    collapse_runs (run + leading_newlines s) (drop (leading_newlines s) s).
Proof.
  revert run. induction s as [|c s IH]; intros run; simpl.
  - by rewrite Nat.add_0_r.
  - case_bool_decide as Hc; simpl.
    + rewrite IH. f_equal. lia.
    + rewrite Nat.add_0_r. simpl. by rewrite bool_decide_eq_false_2.
Qed.

(** The last substitution of the pipeline collapses the runs. *)
Lemma re_sub_blank_lines_collapse s :
  re_sub blank_lines_pattern [nl; nl] s = collapse_blank_lines s.
Proof.
  unfold collapse_blank_lines. revert s.
  refine (induction_ltof1 _ length _ _). intros s IH. unfold ltof in IH.
  rewrite re_sub_blank_run, (collapse_runs_run 0). simpl.
  pose proof (leading_newlines_drop s) as Hhead.
  pose proof (length_drop s (leading_newlines s)) as Hlen.
  destruct (drop (leading_newlines s) s) as [|c t]; simpl in *.
  - by rewrite app_nil_r.
  - case_bool_decide as Hc; [done|].
    rewrite re_sub_blank_other by done. do 2 f_equal. apply IH. lia.
Qed.

Lemma starts_with_three_newlines s :
  starts_with [nl; nl; nl] s = bool_decide (3 ≤ leading_newlines s).
Proof.
  destruct s as [|a [|b [|c s]]]; simpl; repeat case_bool_decide; simpl;
    try done; try lia; congruence.
Qed.

Lemma contains_flush_run run c s :
  c ≠ nl →
  contains [nl; nl; nl] (flush_run run ++ c :: s) = contains [nl; nl; nl] (c :: s).
Proof.
  intros Hc. unfold flush_run.
  assert (∀ n, n ≤ 2 → contains [nl; nl; nl] (replicate n nl ++ c :: s)
                        = contains [nl; nl; nl] (c :: s)) as Hn.
  { intros [|[|[|n]]] Hle; [done| | |lia].
    - simpl. repeat case_bool_decide; simpl; done.
    - simpl. repeat case_bool_decide; simpl; done. }
  case_decide; apply Hn; lia.
Qed.

Lemma collapse_runs_no_triple run s :
  contains [nl; nl; nl] (collapse_runs run s) = false.
Proof.
  revert run. induction s as [|c s IH]; intros run; simpl.
  - unfold flush_run. case_decide; [done|]. by destruct run as [|[|[|?]]]; try lia.
  - case_bool_decide as Hc; [apply IH|].
    rewrite contains_flush_run by done. simpl in *.
    rewrite bool_decide_eq_false_2 by done. simpl.
    destruct (bool_decide (nl = c)); simpl; apply IH.
Qed.

End blank_lines.

(** ** Runs of the two scripts *)

Ltac unfold_run :=
  unfold mbind, M_bind, bind, mret, M_ret, ret,
    path_exists, read_file, write_file, remove, print;
  cbv beta zeta.

Ltac run_simpl := cbn [res disk log negb app].

Section clean_runs.
Import CleanPlanfiles.

Lemma clean_script_present fs content :
  fs !! file_path = Some content →
  script fs =
    Outcome (Ok tt) (<[file_path := transform content]> fs)
            (EvWrite file_path (transform content) :: clean_prints).
Proof.
  intros Hfs. unfold script. unfold_run. rewrite !Hfs. by run_simpl.
Qed.


End clean_runs.

Lemma list_filter_iff_in {A} (P1 P2 : A → Prop)
    `{!∀ x, Decision (P1 x), !∀ x, Decision (P2 x)} (l : list A) :
  (∀ x, x ∈ l → P1 x ↔ P2 x) → filter P1 l = filter P2 l.
Proof.
  induction l as [|a l IH]; intros Hiff; [done|].
  rewrite !filter_cons, IH by (intros x Hx; apply Hiff; by right).
  destruct (decide (P1 a)) as [H1|H1], (decide (P2 a)) as [H2|H2]; try done;
    exfalso; apply (Hiff a) in H1 || apply (Hiff a) in H2; try done; by left.
Qed.

Section update_runs.
Import UpdateTerraformDocs.
Implicit Types (entries : list (string * updates_dict)) (fs : gmap string text).

Lemma update_file_missing filename d fs :
  fs !! target filename = None →
  update_file filename d fs = Outcome (Ok false) fs [EvPrint (MsgNotFound filename)].
Proof.
  intros Hfs. unfold update_file. unfold_run.
  rewrite !Hfs. run_simpl.
  rewrite bool_decide_eq_false_2; [done|]. by intros [? ?].
Qed.

Lemma update_file_present filename d fs content :
  fs !! target filename = Some content →
  update_file filename d fs =
    if bool_decide (transform d content ≠ content)
    then Outcome (Ok true) (<[target filename := transform d content]> fs)
                 [EvWrite (target filename) (transform d content)]
    else Outcome (Ok false) fs [].
Proof.
  intros Hfs. unfold update_file. unfold_run.
  rewrite !Hfs. run_simpl.
  rewrite bool_decide_eq_true_2; [|by eexists]. run_simpl.
  rewrite ?Hfs. run_simpl. unfold transform. by case_bool_decide.
Qed.

Lemma update_loop_cons filename d entries n fs :
  update_loop ((filename, d) :: entries) n fs =
    let o1 := update_file filename d fs in
    match res o1 with
    | Raise e => Outcome (Raise e) (disk o1) (EvPrint (MsgChecking filename) :: log o1)
    | Ok updated =>
        let o2 := update_loop entries (if updated then n + 1 else n) (disk o1) in
        Outcome (res o2) (disk o2)
          (EvPrint (MsgChecking filename) :: log o1 ++
           EvPrint (if updated then MsgUpdated filename else MsgNoChanges filename) :: log o2)
    end.
Proof.
  cbn [update_loop]. unfold_run. run_simpl.
  destruct (update_file filename d fs) as [[[|]|e] fs1 evs]; by run_simpl.
Qed.

(** One turn of the loop, by what it finds on the disk. *)
Lemma update_loop_step filename d entries n fs :
  update_loop ((filename, d) :: entries) n fs =
    match fs !! target filename with
    | None =>
        let o2 := update_loop entries n fs in
        Outcome (res o2) (disk o2)
          (EvPrint (MsgChecking filename) :: EvPrint (MsgNotFound filename) ::
           EvPrint (MsgNoChanges filename) :: log o2)
    | Some content =>
        if bool_decide (transform d content ≠ content) then
          let o2 := update_loop entries (n + 1) (<[target filename := transform d content]> fs) in
          Outcome (res o2) (disk o2)
            (EvPrint (MsgChecking filename) ::
             EvWrite (target filename) (transform d content) ::
             EvPrint (MsgUpdated filename) :: log o2)
        else
          let o2 := update_loop entries n fs in
          Outcome (res o2) (disk o2)
            (EvPrint (MsgChecking filename) :: EvPrint (MsgNoChanges filename) :: log o2)
    end.
Proof.
  rewrite update_loop_cons. destruct (fs !! target filename) as [content|] eqn:E.
  - rewrite (update_file_present _ _ _ _ E). by case_bool_decide.
  - by rewrite (update_file_missing _ _ _ E).
Qed.

(** The loop never raises, removes nothing and keeps the set of files. *)
Lemma update_loop_frame entries n fs :
  let o := update_loop entries n fs in
  (∃ m, res o = Ok m) ∧
  filter is_remove (log o) = [] ∧
  (EvPrint MsgRemovedAnalysis ∉ log o) ∧
  dom (disk o) = dom fs.
Proof.
  revert n fs. induction entries as [|[filename d] entries IH]; intros n fs.
  { simpl. split_and!; [eauto|done|apply not_elem_of_nil|done]. }
  cbv zeta. rewrite update_loop_step.
  destruct (fs !! target filename) as [content|] eqn:E; [case_bool_decide|].
  - destruct (IH (n + 1) (<[target filename := transform d content]> fs))
      as (Hres & Hrm & Hmsg & Hdom).
    cbn [res disk log]. split_and!; [done|done| |].
    + rewrite !not_elem_of_cons. by split_and!.
    + rewrite Hdom. apply dom_insert_lookup_L. by eexists.
  - destruct (IH n fs) as (Hres & Hrm & Hmsg & Hdom). cbn [res disk log].
    split_and!; [done|done| |done]. rewrite !not_elem_of_cons. by split_and!.
  - destruct (IH n fs) as (Hres & Hrm & Hmsg & Hdom). cbn [res disk log].
    split_and!; [done|done| |done]. rewrite !not_elem_of_cons. by split_and!.
Qed.

Lemma changes_insert_ne fs p data e :
  target e.1 ≠ p → changes (<[p := data]> fs) e = changes fs e.
Proof. intros Hne. unfold changes. by rewrite lookup_insert_ne. Qed.

Lemma filter_changes_insert fs p data entries :
  p ∉ (target ∘ fst <$> entries) →
  filter (λ e, changes (<[p := data]> fs) e) entries = filter (λ e, changes fs e) entries.
Proof.
  induction entries as [|e entries IH]; [done|]. rewrite fmap_cons, not_elem_of_cons.
  intros [Hne Hnotin]. rewrite !filter_cons, IH by done.
  rewrite changes_insert_ne; [done|]. simpl in Hne. congruence.
Qed.

(** With pairwise different targets the loop counts the entries whose file
    it changes, writes once for each, and leaves in every target what
    [transform] makes of it. *)
Lemma update_loop_count entries n fs :
  NoDup (target ∘ fst <$> entries) →
  let o := update_loop entries n fs in
  let count := length (filter (λ e, changes fs e) entries) in
  res o = Ok (n + count) ∧
  length (filter is_write (log o)) = count ∧
  (∀ p, p ∉ (target ∘ fst <$> entries) → disk o !! p = fs !! p) ∧
  (∀ e, e ∈ entries → disk o !! target e.1 = transform e.2 <$> fs !! target e.1).
Proof.
  revert n fs. induction entries as [|[filename d] entries IH]; intros n fs Hnodup.
  { simpl. split_and!; [f_equal; lia|done|done|]. by intros e ?%elem_of_nil. }
  rewrite fmap_cons in Hnodup. apply NoDup_cons in Hnodup as [Hfresh Hnodup].
  simpl in Hfresh. cbv zeta. rewrite update_loop_step.
  destruct (fs !! target filename) as [content|] eqn:E; [case_bool_decide as Hch|].
  - assert (changes fs (filename, d) = true) as Hyes.
    { unfold changes. simpl. rewrite E. by apply bool_decide_eq_true. }
    destruct (IH (n + 1) (<[target filename := transform d content]> fs) Hnodup)
      as (Hres & Hwr & Hother & Hin).
    rewrite filter_changes_insert in Hres, Hwr by done.
    rewrite filter_cons_True by (by rewrite Hyes). cbn [res disk log length].
    split_and!.
    + rewrite Hres. f_equal. lia.
    + rewrite filter_cons_False, filter_cons_True, filter_cons_False by (simpl; auto).
      simpl. by rewrite Hwr.
    + intros p [Hp Hnotin]%not_elem_of_cons. rewrite Hother by done.
      by rewrite lookup_insert_ne.
    + intros e [->|He]%elem_of_cons.
      * simpl. rewrite Hother by done. by rewrite lookup_insert_eq, E.
      * rewrite Hin by done. rewrite lookup_insert_ne; [done|].
        intros Heq. apply Hfresh. rewrite Heq.
        apply (list_elem_of_fmap_2 (target ∘ fst) _ _ He).
  - assert (changes fs (filename, d) = false) as Hno.
    { unfold changes. simpl. rewrite E. apply bool_decide_eq_false. by intros H. }
    destruct (IH n fs Hnodup) as (Hres & Hwr & Hother & Hin).
    rewrite filter_cons_False by (rewrite Hno; simpl; auto). cbn [res disk log].
    split_and!; [done| |by intros p [_ ?]%not_elem_of_cons; apply Hother|].
    + by rewrite !filter_cons_False by (simpl; auto).
    + intros e [->|He]%elem_of_cons; [|by apply Hin].
      simpl. rewrite Hother by done. rewrite E. simpl. by rewrite Hch.
  - assert (changes fs (filename, d) = false) as Hno.
    { unfold changes. simpl. by rewrite E. }
    destruct (IH n fs Hnodup) as (Hres & Hwr & Hother & Hin).
    rewrite filter_cons_False by (rewrite Hno; simpl; auto). cbn [res disk log].
    split_and!; [done| |by intros p [_ ?]%not_elem_of_cons; apply Hother|].
    + by rewrite !filter_cons_False by (simpl; auto).
    + intros e [->|He]%elem_of_cons; [|by apply Hin].
      simpl. rewrite Hother by done. by rewrite E.
Qed.

(** The targets of the table are pairwise different, and none of them is
    the analysis file. *)
Lemma updates_targets_nodup : NoDup (target ∘ fst <$> updates).
Proof. apply (bool_decide_unpack _). vm_compute. exact I. Qed.

Lemma analysis_file_no_target : analysis_file ∉ (target ∘ fst <$> updates).
Proof. apply (bool_decide_unpack _). vm_compute. exact I. Qed.

(** The script after its loop. *)
Lemma script_for_run entries fs m :
  res (update_loop entries 0 fs) = Ok m →
  script_for entries fs =
    Outcome (Ok tt)
      (delete analysis_file (disk (update_loop entries 0 fs)))
      (EvPrint MsgUpdating :: log (update_loop entries 0 fs) ++
       EvPrint (MsgUpdatedCount m) ::
       if bool_decide (is_Some (disk (update_loop entries 0 fs) !! analysis_file))
       then [EvRemove analysis_file; EvPrint MsgRemovedAnalysis] else []).
Proof.
  unfold script_for. unfold_run. run_simpl.
  destruct (update_loop entries 0 fs) as [r fs1 evs]. cbn [res disk log].
  intros ->. run_simpl. destruct (fs1 !! analysis_file) as [data|] eqn:E.
  - rewrite bool_decide_eq_true_2 by (by eexists). run_simpl. by rewrite ?E.
  - rewrite bool_decide_eq_false_2 by (by intros [? ?]). run_simpl.
    by rewrite delete_id.
Qed.

(** The analysis file, for any table. *)
Lemma script_for_analysis entries fs :
  let o := script_for entries fs in
  res o = Ok tt ∧
  disk o !! analysis_file = None ∧
  filter is_remove (log o) =
    (if bool_decide (is_Some (fs !! analysis_file))
     then [EvRemove analysis_file] else []) ∧
  (EvPrint MsgRemovedAnalysis ∈ log o ↔ is_Some (fs !! analysis_file)) ∧
  dom (disk o) = dom fs ∖ {[analysis_file]}.
Proof.
  intros o. subst o.
  destruct (update_loop_frame entries 0 fs) as ([m Hres] & Hrm & Hmsg & Hdom).
  rewrite (script_for_run entries fs m Hres). cbn [res disk log].
  assert (is_Some (disk (update_loop entries 0 fs) !! analysis_file)
          ↔ is_Some (fs !! analysis_file)) as Hsame.
  { by rewrite <-!elem_of_dom, Hdom. }
  rewrite (bool_decide_ext _ _ Hsame).
  revert Hrm Hmsg Hdom. generalize (update_loop entries 0 fs). clear Hres Hsame.
  intros o1 Hrm Hmsg Hdom. split_and!.
  - done.
  - apply lookup_delete_eq.
  - rewrite filter_cons_False, filter_app, Hrm, filter_cons_False by (simpl; auto).
    by case_bool_decide.
  - rewrite elem_of_cons, elem_of_app, elem_of_cons.
    case_bool_decide as Hthere.
    + split; [done|]. intros _. do 3 right. rewrite !elem_of_cons. auto.
    + split; [|done]. intros [?|[?|[?|?%elem_of_nil]]]; done.
  - by rewrite dom_delete_L, Hdom.
Qed.

(** The count, for a table with pairwise different targets none of which
    is the analysis file. *)
Lemma script_for_count entries fs :
  NoDup (target ∘ fst <$> entries) →
  analysis_file ∉ (target ∘ fst <$> entries) →
  let o := script_for entries fs in
  ∃ n, EvPrint (MsgUpdatedCount n) ∈ log o ∧
       n = length (filter (λ e, fs !! target e.1 ≠ disk o !! target e.1) entries) ∧
       n = length (filter is_write (log o)).
Proof.
  intros Hnodup Hanalysis o. subst o.
  destruct (update_loop_count entries 0 fs Hnodup) as (Hres & Hwr & Hother & Hin).
  rewrite (script_for_run entries fs _ Hres). cbn [res disk log].
  eexists. split_and!.
  - rewrite elem_of_cons, elem_of_app, elem_of_cons. right. right. by left.
  - rewrite Nat.add_0_l. f_equal. apply list_filter_iff_in.
    intros e He. rewrite lookup_delete_ne.
    2:{ intros Heq. apply Hanalysis. rewrite Heq.
        apply (list_elem_of_fmap_2 (target ∘ fst) _ _ He). }
    rewrite Hin by done. unfold changes.
    destruct (fs !! target e.1) as [c|]; cbn [fmap option_fmap option_map].
    + rewrite bool_decide_spec. split; intros Hne Heq; apply Hne; congruence.
    + split; [by intros []|by intros []].
  - rewrite filter_cons_False, filter_app, filter_cons_False by (cbn; auto).
    rewrite length_app, Hwr.
    assert (filter is_write
              (if bool_decide (is_Some (disk (update_loop entries 0 fs) !! analysis_file))
               then [EvRemove analysis_file; EvPrint MsgRemovedAnalysis] else []) = []) as ->.
    { by case_bool_decide. }
    cbn [length]. lia.
Qed.

End update_runs.

(** ** The page-cleaning script *)

Section clean_claims.
Import CleanPlanfiles.

(** C5: when none of the six patterns matches the content of the page, the
    transformation gives the content back as it is, the run ends without an
    exception and the file holds what it held. *)
Theorem C5_no_match_is_noop (fs : gmap string text) (content : text) :
  re_search ci_cd_pattern content = None →
  re_search old_alternative_section content = None →
  re_search production_pattern content = None →
  re_search old_practices content = None →
  re_search gitlab_pattern content = None →
  re_search blank_lines_pattern content = None →
  let o := script (<[file_path := content]> fs) in
  transform content = content ∧
  res o = Ok tt ∧
  disk o = <[file_path := content]> fs.
Proof.
  intros H1 H2 H3 H4 H5 H6 o.
  assert (transform content = content) as Hid.
  { unfold transform.
    rewrite (re_sub_no_match ci_cd_pattern) by done.
    rewrite (re_sub_no_match old_alternative_section) by done.
    rewrite (re_sub_no_match production_pattern) by done.
    rewrite (re_sub_no_match old_practices) by done.
    rewrite (re_sub_no_match gitlab_pattern) by done.
    by rewrite (re_sub_no_match blank_lines_pattern). }
  subst o. rewrite (clean_script_present _ content) by apply lookup_insert_eq.
  rewrite Hid. simpl. by rewrite insert_insert_eq.
Qed.

Lemma C5_witness :
  transform (txt "# Planfiles") = txt "# Planfiles" ∧
  res (script (<[file_path := txt "# Planfiles"]> ∅)) = Ok tt ∧
  disk (script (<[file_path := txt "# Planfiles"]> ∅)) = <[file_path := txt "# Planfiles"]> ∅.
Proof. apply (C5_no_match_is_noop ∅ (txt "# Planfiles")); vm_compute; reflexivity. Defined.

(** C4, as amended: the text the page-cleaning script writes never holds
    three newlines in a row. *)
Theorem C4_clean_output_has_no_blank_run (fs : gmap string text) (content : text) :
  let o := script (<[file_path := content]> fs) in
  filter is_write (log o) = [EvWrite file_path (transform content)] ∧
  contains [nl; nl; nl] (transform content) = false.
Proof.
  intros o. subst o. rewrite (clean_script_present _ content) by apply lookup_insert_eq.
  split; [done|]. unfold transform.
  rewrite re_sub_blank_lines_collapse. apply collapse_runs_no_triple.
Qed.

End clean_claims.

(** ** [str.replace] *)

Section replace_facts.
Implicit Types (old new s : text).

Lemma starts_with_app old s :
  starts_with old s = true → s = old ++ drop (length old) s.
Proof.
  revert s. induction old as [|a old IH]; intros s; [done|].
  destruct s as [|b s]; [done|]. simpl.
  intros [->%bool_decide_eq_true Hs]%andb_true_iff. f_equal. by apply IH.
Qed.

Lemma replace_scan_skip old new n s :
  n ≤ length s →
  replace_scan old new n s = replace_scan old new 0 (drop n s).
Proof.
  revert s. induction n as [|n IH]; intros s Hn; [by rewrite drop_0|].
  destruct s as [|c s]; simpl in *; [lia|]. apply IH. lia.
Qed.

(** One step of the scan at the head of a text that is not empty. *)
Lemma replace_scan_step a old new c s :
  replace_scan (a :: old) new 0 (c :: s) =
    if starts_with (a :: old) (c :: s)
    then new ++ replace_scan (a :: old) new 0 (drop (length old) s)
    else c :: replace_scan (a :: old) new 0 s.
Proof.
  cbn [replace_scan]. destruct (starts_with (a :: old) (c :: s)) eqn:E; [|done].
  cbn [length pred]. rewrite replace_scan_skip; [done|].
  apply starts_with_app in E. apply (f_equal length) in E.
  rewrite length_app in E. simpl in E. lia.
Qed.

(** Replacing a text by itself changes nothing. *)
Lemma str_replace_same old s : str_replace old old s = s.
Proof.
  destruct old as [|a old]; simpl.
  { induction s as [|c s IH]; [done|]. simpl in *. by rewrite IH. }
  revert s. refine (induction_ltof1 _ length _ _). intros s IH. unfold ltof in IH.
  destruct s as [|c s]; [done|]. rewrite replace_scan_step.
  destruct (starts_with (a :: old) (c :: s)) eqn:E.
  - pose proof (starts_with_app _ _ E) as Hs. simpl in Hs.
    injection Hs as -> Hs. rewrite IH.
    + simpl. by rewrite <-Hs.
    + rewrite length_drop. simpl. lia.
  - f_equal. apply IH. simpl. lia.
Qed.

(** A text that does not occur is not replaced. *)
Lemma str_replace_absent old new s :
  contains old s = false → str_replace old new s = s.
Proof.
  destruct old as [|a old]; [by destruct s|]. simpl.
  induction s as [|c s IH]; [done|]. intros [Hh Ht]%orb_false_iff.
  rewrite replace_scan_step, Hh. f_equal. by apply IH.
Qed.

End replace_facts.

(** ** The info box *)

Section info_box_facts.
Import UpdateTerraformDocs.
Implicit Types (box line : text) (lines acc rest : list text).

(** Once the box is in, the loop only copies. *)
Lemma info_loop_added box lines acc i rest :
  info_loop box lines (acc, true) i rest = (acc ++ rest, true).
Proof.
  revert acc i. induction rest as [|line rest IH]; intros acc i; simpl.
  - by rewrite app_nil_r.
  - rewrite IH. by rewrite <-app_assoc.
Qed.

Lemma find_from_S lines i k :
  find_from lines i (S k) =
    if anchor_at lines i then Some i else find_from lines (S i) k.
Proof.
  unfold find_from. simpl. destruct (anchor_at lines i) eqn:E.
  - by rewrite decide_True.
  - rewrite decide_False by done.
    by destruct (list_find _ (seq (S i) k)) as [[??]|].
Qed.

Lemma info_loop_search box lines i rest :
  drop i lines = rest →
  info_loop box lines (take i lines, false) i rest =
    match find_from lines i (length rest) with
    | Some j => (take (S j) lines ++ [strip box] ++ drop (S j) lines, true)
    | None => (lines, false)
    end.
Proof.
  revert i. induction rest as [|line rest IH]; intros i Hdrop.
  - simpl. unfold find_from. simpl. f_equal.
    apply take_ge. apply drop_nil_inv in Hdrop. lia.
  - assert (lines !! i = Some line) as Hi.
    { rewrite <-(Nat.add_0_r i), <-lookup_drop, Hdrop. done. }
    assert (drop (S i) lines = rest) as Hrest.
    { rewrite (drop_S _ _ _ Hi) in Hdrop. by injection Hdrop. }
    cbn [info_loop length]. rewrite find_from_S. unfold info_loop_body.
    rewrite <-(take_S_r _ _ _ Hi).
    replace (bool_decide (line = [])) with (bool_decide (lines !! i = Some [])).
    2:{ rewrite Hi. apply bool_decide_ext. naive_solver. }
    cbn [negb andb]. fold (anchor_at lines i).
    destruct (anchor_at lines i).
    + rewrite info_loop_added, Hrest. by rewrite <-app_assoc.
    + by apply IH.
Qed.

Lemma add_info_box_once d content :
  add_info_box d content =
    if truthy (info_box d) then insert_info_box_once (info_box d) content else content.
Proof.
  unfold add_info_box, insert_info_box_once, first_anchor.
  destruct (truthy (info_box d)); [|done].
  pose proof (info_loop_search (info_box d) (str_split nl content) 0 _ eq_refl) as Hloop.
  rewrite drop_0, take_0 in Hloop. cbv zeta. rewrite Hloop.
  by destruct (find_from _ _ _).
Qed.

(** [first_anchor] is the least index that is an anchor. *)
Lemma first_anchor_Some lines i :
  first_anchor lines = Some i ↔
  anchor_at lines i = true ∧ ∀ j, j < i → anchor_at lines j = false.
Proof.
  unfold first_anchor, find_from.
  assert (∀ j, anchor_at lines j = true → j < length lines) as Hlt.
  { intros j [[_ _]%andb_true_iff Hj%bool_decide_eq_true]%andb_true_iff.
    by apply lookup_lt_Some in Hj. }
  split.
  - destruct (list_find _ _) as [[k x]|] eqn:E; [|done]. simpl. intros [= ->].
    apply list_find_Some in E as (Hk & Hx & Hmin).
    apply lookup_seq in Hk as [-> ?]. simpl in *. split; [done|].
    intros j Hj. specialize (Hmin j j). rewrite lookup_seq in Hmin.
    destruct (anchor_at lines j); [|done]. exfalso. apply Hmin; [|done..]. split; lia.
  - intros [Hi Hmin].
    assert (list_find (λ j, anchor_at lines j = true) (seq 0 (length lines)) = Some (i, i)) as ->; [|done].
    apply list_find_Some. split_and!; [|done|].
    + apply lookup_seq. split; [done|]. by apply Hlt.
    + intros j y [-> ?]%lookup_seq Hj. simpl. rewrite Hmin by done. done.
Qed.

Lemma first_anchor_None lines :
  first_anchor lines = None ↔ ∀ j, anchor_at lines j = false.
Proof.
  unfold first_anchor, find_from. split.
  - destruct (list_find _ _) as [[k x]|] eqn:E; [done|]. intros _ j.
    apply list_find_None in E. destruct (anchor_at lines j) eqn:Ej; [|done].
    exfalso. rewrite Forall_forall in E. apply (E j); [|done].
    apply elem_of_seq.
    apply andb_true_iff in Ej as [_ Hj%bool_decide_eq_true].
    apply lookup_lt_Some in Hj. lia.
  - intros Hnone.
    assert (list_find (λ j, anchor_at lines j = true) (seq 0 (length lines)) = None) as ->; [|done].
    apply list_find_None, Forall_forall. intros j _. by rewrite Hnone.
Qed.

End info_box_facts.

(** ** The table-driven script *)

Section update_claims.
Import UpdateTerraformDocs.

(** C8: when the entry has an info box, the loop puts its stripped text in
    once, right after the first empty line that follows a line starting with
    "This command", and leaves the content as it is when there is no such
    line; that first place is an anchor and no earlier index is one. *)
Theorem C8_info_box_inserted_once (d : updates_dict) (content : text) :
  let lines := str_split nl content in
  add_info_box d content =
    (if truthy (info_box d) then insert_info_box_once (info_box d) content
     else content) ∧
  match first_anchor lines with
  | Some i =>
      anchor_at lines i = true ∧
      forallb (λ j, negb (anchor_at lines j)) (seq 0 i) = true
  | None =>
      forallb (λ j, negb (anchor_at lines j)) (seq 0 (length lines)) = true
  end.
Proof.
  intros lines. split; [apply add_info_box_once|].
  destruct (first_anchor lines) as [i|] eqn:E.
  - apply first_anchor_Some in E as [Hi Hmin]. split; [done|].
    apply forallb_forall. intros j [_ Hj]%in_seq. by rewrite Hmin.
  - apply forallb_forall. intros j _.
    by rewrite (proj1 (first_anchor_None lines) E).
Qed.

(** C9: replacing ":::note purpose\nUse this command" by itself gives every
    text back, and [update_file] is the function that only inserts the addon
    before ":::\n\n<Screengrab". *)
Theorem C9_first_replacement_is_identity
    (filename : string) (d : updates_dict) (fs : gmap string text) (s : text) :
  str_replace purpose_note purpose_note s = s ∧
  update_file filename d fs = update_file_simplified filename d fs.
Proof.
  split; [apply str_replace_same|].
  assert (∀ content, add_purpose d content = add_purpose_simplified d content) as Heq.
  { intros content. unfold add_purpose, add_purpose_simplified.
    destruct (truthy (purpose_addon d)); [|done]. cbv zeta.
    by rewrite str_replace_same. }
  destruct (fs !! target filename) as [content|] eqn:E.
  - rewrite (update_file_present _ _ _ _ E).
    unfold update_file_simplified. unfold_run. rewrite !E. run_simpl.
    rewrite (bool_decide_eq_true_2 (is_Some _)) by (by eexists). run_simpl.
    rewrite ?E. run_simpl. unfold transform. rewrite Heq. by case_bool_decide.
  - rewrite (update_file_missing _ _ _ E).
    unfold update_file_simplified. unfold_run. rewrite !E. run_simpl.
    rewrite bool_decide_eq_false_2; [done|]. by intros [? ?].
Qed.

(** C6: the script ends without an exception on every disk; the analysis
    file is not there afterwards; the one removal and its message happen
    when the file was there at the start and not otherwise; no other file
    appears or disappears. *)
Theorem C6_analysis_file_removed_iff_present (fs : gmap string text) :
  let o := script fs in
  res o = Ok tt ∧
  disk o !! analysis_file = None ∧
  filter is_remove (log o) =
    (if bool_decide (is_Some (fs !! analysis_file))
     then [EvRemove analysis_file] else []) ∧
  (EvPrint MsgRemovedAnalysis ∈ log o ↔ is_Some (fs !! analysis_file)) ∧
  dom (disk o) = dom fs ∖ {[analysis_file]}.
Proof. exact (script_for_analysis updates fs). Qed.

(** C10: on a disk that holds the target, [update_file] returns [True]
    exactly when what it makes of the content differs from the content; when
    it returns [False] the disk is the one it found and nothing was done;
    the script reports the number of its entries whose file differs from
    what it was at the start, which is also the number of its writes. *)
Theorem C10_true_iff_changed_and_count
    (fs : gmap string text) (filename : string) (d : updates_dict) (content : text) :
  let fs1 := <[target filename := content]> fs in
  let o1 := update_file filename d fs1 in
  let o := script fs in
  res o1 = Ok (bool_decide (transform d content ≠ content)) ∧
  (if bool_decide (transform d content ≠ content)
   then disk o1 = <[target filename := transform d content]> fs
   else disk o1 = fs1 ∧ log o1 = []) ∧
  ∃ n, EvPrint (MsgUpdatedCount n) ∈ log o ∧
       n = length (filter (λ e, fs !! target e.1 ≠ disk o !! target e.1) updates) ∧
       n = length (filter is_write (log o)).
Proof.
  intros fs1 o1 o. subst fs1 o1 o. split_and!.
  - rewrite (update_file_present _ _ _ content) by apply lookup_insert_eq.
    by case_bool_decide.
  - rewrite (update_file_present _ _ _ content) by apply lookup_insert_eq.
    case_bool_decide; [|done]. cbn [disk]. apply insert_insert_eq.
  - exact (script_for_count updates fs updates_targets_nodup analysis_file_no_target).
Qed.

End update_claims.

(** ** What both scripts are said to do *)

Section both_scripts.
Import UpdateTerraformDocs.







(** Counterexample to C3: on a page that the pipeline leaves as it is, the
    page-cleaning script writes the file all the same. *)
Lemma C3_counterexample :
  CleanPlanfiles.transform (txt "# Planfiles") = txt "# Planfiles" ∧
  filter is_write
    (log (CleanPlanfiles.script (<[CleanPlanfiles.file_path := txt "# Planfiles"]> ∅)))
    = [EvWrite CleanPlanfiles.file_path (txt "# Planfiles")].
Proof.
  assert (CleanPlanfiles.transform (txt "# Planfiles") = txt "# Planfiles") as Hsame.
  { vm_compute. reflexivity. }
  split; [done|].
  rewrite (clean_script_present _ (txt "# Planfiles")) by apply lookup_insert_eq.
  by rewrite Hsame.
Qed.

(** C3, as amended: [update_file] writes what it made of the content when
    that differs from the content and writes nothing when it is equal; the
    page-cleaning script writes what it made of the page in every run. *)
Theorem C3_write_back
    (fs : gmap string text) (filename : string) (d : updates_dict) (content page : text) :
  let o := update_file filename d (<[target filename := content]> fs) in
  let o' := CleanPlanfiles.script (<[CleanPlanfiles.file_path := page]> fs) in
  filter is_write (log o) =
    (if bool_decide (transform d content = content) then []
     else [EvWrite (target filename) (transform d content)]) ∧
  filter is_write (log o') =
    [EvWrite CleanPlanfiles.file_path (CleanPlanfiles.transform page)].
Proof.
  intros o o'. subst o o'. split.
  - rewrite (update_file_present _ _ _ content) by apply lookup_insert_eq.
    by repeat case_bool_decide.
  - by rewrite (clean_script_present _ page) by apply lookup_insert_eq.
Qed.

(** Counterexample to C4: an entry of the table, on a page that starts with
    three newlines, writes a text that still holds them. *)
Lemma C4_counterexample :
  ∃ filename d data,
    updates !! 2 = Some (filename, d) ∧
    log (update_file filename d
           (<[target filename :=
                unlines [[]; []; []; txt "This command logs in."; []; txt "Usage"]]> ∅))
      = [EvWrite (target filename) data] ∧
    contains [nl; nl; nl] data = true.
Proof.
  eexists _, _, _. split; [reflexivity|].
  rewrite (update_file_present _ _ _
             (unlines [[]; []; []; txt "This command logs in."; []; txt "Usage"]))
    by apply lookup_insert_eq.
  rewrite bool_decide_eq_true_2.
  - split; [reflexivity|]. vm_compute. reflexivity.
  - apply (bool_decide_eq_false_1 _). vm_compute. reflexivity.
Qed.

End both_scripts.

(** * Further properties of the code *)

(** ** [str.split] and [str.join] *)

Section split_join.
Implicit Types (c : ascii) (s l : text) (ls : list text).

Lemma str_split_cons c s : ∃ l ls, str_split c s = l :: ls.
Proof.
  destruct s as [|x s]; simpl; [by eexists _, _|].
  case_bool_decide; [by eexists _, _|].
  destruct (str_split c s); by eexists _, _.
Qed.

Lemma str_join_cons sep l l' ls :
  str_join sep (l :: l' :: ls) = l ++ sep ++ str_join sep (l' :: ls).
Proof. done. Qed.

Lemma str_join_split c s : str_join [c] (str_split c s) = s.
Proof.
  induction s as [|x s IH]; [done|]. cbn [str_split].
  destruct (str_split_cons c s) as (l & ls & Hs). rewrite Hs in IH |- *.
  case_bool_decide as Hx.
  - subst x. by rewrite str_join_cons, IH.
  - destruct ls as [|l' ls].
    + simpl in *. by rewrite IH.
    + rewrite str_join_cons in IH |- *. by rewrite <-IH.
Qed.

Lemma str_split_free c s : c ∉ s → str_split c s = [s].
Proof.
  induction s as [|x s IH]; [done|]. intros [Hx Hs]%not_elem_of_cons. simpl.
  rewrite bool_decide_eq_false_2 by done. by rewrite IH.
Qed.

Lemma str_split_lines c s :
  Forall (λ l, c ∉ l) (str_split c s) ∧
  length (str_split c s) = S (length (filter (λ x, x = c) s)).
Proof.
  induction s as [|x s [IHfree IHlen]]; simpl.
  - split; [|done]. repeat constructor. apply not_elem_of_nil.
  - case_bool_decide as Hx.
    + subst x. rewrite filter_cons_True by done. simpl. split; [|by rewrite IHlen].
      constructor; [apply not_elem_of_nil|done].
    + rewrite filter_cons_False by done.
      destruct (str_split c s) as [|l ls]; simpl in *; [done|].
      split; [|done]. apply Forall_cons in IHfree as [Hl Hls].
      constructor; [|done]. rewrite not_elem_of_cons. auto.
Qed.

Lemma str_split_app c a b :
  str_split c (a ++ c :: b) = str_split c a ++ str_split c b.
Proof.
  induction a as [|x a IH]; simpl.
  - by rewrite bool_decide_eq_true_2.
  - rewrite IH. case_bool_decide; [done|].
    by destruct (str_split_cons c a) as (l & ls & ->).
Qed.

Lemma str_split_join c ls :
  ls ≠ [] → str_split c (str_join [c] ls) = ls ≫= str_split c.
Proof.
  induction ls as [|l ls IH]; [done|]. intros _.
  destruct ls as [|l' ls].
  - simpl. by rewrite app_nil_r.
  - rewrite str_join_cons. cbn [app]. rewrite str_split_app, IH by done. done.
Qed.

Lemma bind_split_free c ls :
  Forall (λ l, c ∉ l) ls → ls ≫= str_split c = ls.
Proof.
  induction 1 as [|l ls Hl Hls IH]; [done|].
  rewrite bind_cons, IH, str_split_free by done. done.
Qed.

Lemma str_join_app sep ls1 ls2 :
  ls1 ≠ [] → ls2 ≠ [] →
  str_join sep (ls1 ++ ls2) = str_join sep ls1 ++ sep ++ str_join sep ls2.
Proof.
  intros H1 H2. induction ls1 as [|l ls1 IH]; [done|].
  destruct ls1 as [|l' ls1].
  - destruct ls2; [done|]. done.
  - change ((l :: l' :: ls1) ++ ls2) with (l :: l' :: (ls1 ++ ls2)).
    rewrite !str_join_cons.
    change (l' :: (ls1 ++ ls2)) with ((l' :: ls1) ++ ls2).
    rewrite IH by done. by rewrite <-!app_assoc.
Qed.

(** X1: joining the lines of a text with the separator it was split at
    gives the text back, also for the empty text, whose only line is
    empty. *)
Theorem X1_join_split_round_trip c s :
  str_join [c] (str_split c s) = s ∧ str_split c [] = [[]].
Proof. split; [apply str_join_split|done]. Qed.

(** X2: no line of a split text holds the separator, there is one more line
    than the text has separators, and splitting the joined lines gives the
    lines back. *)
Theorem X2_split_lines c s :
  Forall (λ l, c ∉ l) (str_split c s) ∧
  length (str_split c s) = S (length (filter (λ x, x = c) s)) ∧
  str_split c (str_join [c] (str_split c s)) = str_split c s.
Proof.
  destruct (str_split_lines c s) as [Hfree Hlen]. split_and!; [done..|].
  by rewrite str_join_split.
Qed.

(** X3: lines that hold no separator come back from joining and splitting,
    whatever their number, as long as there is one. *)
Theorem X3_split_join_round_trip c ls :
  ls ≠ [] → Forall (λ l, c ∉ l) ls →
  str_split c (str_join [c] ls) = ls.
Proof.
  intros Hne Hfree. rewrite str_split_join by done. by apply bind_split_free.
Qed.

Lemma X3_witness :
  str_split nl (str_join [nl] [txt "a"; []; txt "b"]) = [txt "a"; []; txt "b"].
Proof.
  apply (X3_split_join_round_trip nl [txt "a"; []; txt "b"]); [done|].
  apply (bool_decide_unpack _). vm_compute. exact I.
Defined.

End split_join.

(** ** More on the info box *)

Section info_box_more.
Import UpdateTerraformDocs.
Implicit Types (box line : text) (lines : list text).

Lemma anchor_at_lt lines i : anchor_at lines i = true → i < length lines.
Proof.
  intros [_ Hi%bool_decide_eq_true]%andb_true_iff. by apply lookup_lt_Some in Hi.
Qed.

(** Where the box goes in the text, not in the list of lines. *)
Lemma insert_info_box_text box content i :
  first_anchor (str_split nl content) = Some i →
  ∃ pre suf,
    content = pre ++ suf ∧
    ((insert_info_box_once box content = pre ++ (strip box ++ [nl]) ++ suf) ∨
     (suf = [] ∧ insert_info_box_once box content = pre ++ nl :: strip box)).
Proof.
  intros Hi. unfold insert_info_box_once. rewrite Hi.
  apply first_anchor_Some in Hi as [Hi%anchor_at_lt _].
  pose proof (str_join_split nl content) as Hjoin.
  set (lines := str_split nl content) in *.
  rewrite <-(take_drop (S i) lines) in Hjoin.
  assert (take (S i) lines ≠ []) as Htake.
  { intros Hnil%(f_equal length). rewrite length_take_le in Hnil by lia. done. }
  destruct (drop (S i) lines) as [|l ls].
  - exists content, []. rewrite !app_nil_r in *. split; [done|]. right. split; [done|].
    rewrite str_join_app by done. by rewrite Hjoin.
  - rewrite str_join_app in Hjoin by done.
    exists (str_join [nl] (take (S i) lines) ++ [nl]), (str_join [nl] (l :: ls)).
    split; [by rewrite <-app_assoc|]. left.
    rewrite str_join_app by done.
    change ([strip box] ++ l :: ls) with (strip box :: l :: ls).
    rewrite str_join_cons. by rewrite <-!app_assoc.
Qed.

Lemma add_info_box_shape (d : updates_dict) (content : text) :
  (if truthy (info_box d)
      && bool_decide (is_Some (first_anchor (str_split nl content)))
   then ∃ pre suf,
          content = pre ++ suf ∧
          ((add_info_box d content = pre ++ (strip (info_box d) ++ [nl]) ++ suf) ∨
           (suf = [] ∧ add_info_box d content = pre ++ nl :: strip (info_box d)))
   else add_info_box d content = content) ∧
  length (add_info_box d content) =
    length content +
    (if truthy (info_box d)
        && bool_decide (is_Some (first_anchor (str_split nl content)))
     then S (length (strip (info_box d))) else 0).
Proof.
  rewrite add_info_box_once. destruct (truthy (info_box d)); [|simpl; auto with lia].
  destruct (first_anchor (str_split nl content)) as [i|] eqn:Hi.
  - rewrite bool_decide_eq_true_2 by (by eexists). cbn [andb].
    destruct (insert_info_box_text (info_box d) content i Hi)
      as (pre & suf & Hc & [Hnew|[Hsuf Hnew]]).
    + split; [by eauto 6|]. rewrite Hnew, Hc, !length_app. simpl. lia.
    + split; [by eauto 6|]. rewrite Hnew, Hc, Hsuf, !length_app. simpl. lia.
  - rewrite bool_decide_eq_false_2 by (by intros [? ?]). cbn [andb].
    unfold insert_info_box_once. rewrite Hi. auto with lia.
Qed.

Lemma anchor_at_prefix lines rest i j :
  i < length lines → j ≤ i →
  anchor_at (take (S i) lines ++ rest) j = anchor_at lines j.
Proof.
  intros Hi Hj. unfold anchor_at.
  rewrite !lookup_app_l by (rewrite length_take_le; lia).
  by rewrite !lookup_take_lt by lia.
Qed.

(** The lines of the page after the insertion. *)
Lemma insert_info_box_lines box content i :
  first_anchor (str_split nl content) = Some i →
  str_split nl (insert_info_box_once box content) =
    take (S i) (str_split nl content) ++ str_split nl (strip box)
      ++ drop (S i) (str_split nl content).
Proof.
  intros Hi. unfold insert_info_box_once. rewrite Hi.
  destruct (str_split_lines nl content) as [Hfree _].
  rewrite str_split_join by (by destruct (take (S i) (str_split nl content))).
  rewrite !bind_app, bind_cons.
  change ((@nil (list ascii)) ≫= str_split nl) with (@nil (list ascii)).
  rewrite app_nil_r.
  rewrite !bind_split_free; [done|by apply Forall_drop|by apply Forall_take].
Qed.

Lemma add_info_box_anchor (d : updates_dict) (content : text) :
  first_anchor (str_split nl (add_info_box d content))
    = first_anchor (str_split nl content).
Proof.
  { rewrite add_info_box_once. destruct (truthy (info_box d)); [|done].
    destruct (first_anchor (str_split nl content)) as [i|] eqn:Hi.
    - rewrite (insert_info_box_lines _ _ _ Hi).
      apply first_anchor_Some in Hi as [Hi Hmin].
      pose proof (anchor_at_lt _ _ Hi) as Hlt.
      apply first_anchor_Some. split.
      + by rewrite anchor_at_prefix.
      + intros j Hj. rewrite anchor_at_prefix by lia. by apply Hmin.
    - unfold insert_info_box_once. by rewrite Hi. }
Qed.

(** X4: the info-box step deletes nothing.  When the entry has a box and
    the page an anchor, the result is the page with the stripped box and one
    newline put in at one place; otherwise it is the page. *)
Theorem X4_info_box_only_inserts (d : updates_dict) (content : text) :
  (if truthy (info_box d)
      && bool_decide (is_Some (first_anchor (str_split nl content)))
   then ∃ pre suf,
          content = pre ++ suf ∧
          ((add_info_box d content = pre ++ (strip (info_box d) ++ [nl]) ++ suf) ∨
           (suf = [] ∧ add_info_box d content = pre ++ nl :: strip (info_box d)))
   else add_info_box d content = content) ∧
  length content ≤ length (add_info_box d content).
Proof.
  destruct (add_info_box_shape d content) as [Hshape Hlen]. split; [done|]. lia.
Qed.

(** X5: the insertion leaves the first anchor where it was, so a second run
    of the step inserts the box again: the step is idempotent exactly on the
    pages it leaves alone. *)
Theorem X5_info_box_anchor_stays (d : updates_dict) (content : text) :
  first_anchor (str_split nl (add_info_box d content))
    = first_anchor (str_split nl content) ∧
  (add_info_box d (add_info_box d content) = add_info_box d content
   ↔ add_info_box d content = content).
Proof.
  pose proof (add_info_box_anchor d content) as Hsame.
  split; [done|]. split; [|intros Heq; by rewrite !Heq].
  intros Hfix. apply (f_equal length) in Hfix.
  destruct (add_info_box_shape d content) as [Hkeep Hlen].
  destruct (add_info_box_shape d (add_info_box d content)) as [_ Hlen'].
  rewrite Hsame in Hlen'.
  destruct (truthy (info_box d)
            && bool_decide (is_Some (first_anchor (str_split nl content))));
    [lia|done].
Qed.

End info_box_more.

(** ** More on [str.replace] and the purpose addon *)

Section replace_more.
Implicit Types (old new s x : text).

Lemma starts_with_self old s : starts_with old (old ++ s) = true.
Proof.
  induction old as [|a old IH]; [done|]. simpl.
  by rewrite bool_decide_eq_true_2, IH.
Qed.

Lemma contains_app old x s :
  contains old s = true → contains old (x ++ s) = true.
Proof.
  intros Hs. induction x as [|c x IH]; [done|]. simpl.
  rewrite IH. apply orb_true_r.
Qed.

Lemma contains_cons_true old c s :
  contains old s = true → contains old (c :: s) = true.
Proof. apply (contains_app old [c]). Qed.

Lemma contains_self old s : contains old (old ++ s) = true.
Proof. destruct old; simpl; [by destruct s|]. by rewrite bool_decide_eq_true_2, starts_with_self. Qed.

(** What the scan gives is at least as long as the text when the new text
    is at least as long as the old one, and longer when the new text is
    longer and the old one occurs. *)
Lemma replace_scan_length a old new s :
  length (a :: old) ≤ length new →
  length s ≤ length (replace_scan (a :: old) new 0 s) ∧
  (length (a :: old) < length new → contains (a :: old) s = true →
   length s < length (replace_scan (a :: old) new 0 s)).
Proof.
  intros Hnew. revert s.
  refine (induction_ltof1 _ length _ _). intros s IH. unfold ltof in IH.
  destruct s as [|c s]; [done|]. rewrite replace_scan_step.
  destruct (starts_with (a :: old) (c :: s)) eqn:E.
  - apply starts_with_app in E. apply (f_equal length) in E.
    rewrite length_app, length_drop in E.
    destruct (IH (drop (length old) s)) as [Hle _].
    { rewrite length_drop. simpl. lia. }
    rewrite length_app. rewrite length_drop in Hle. simpl in *. split; lia.
  - destruct (IH s) as [Hle Hlt]; [simpl; lia|]. simpl length at 1 3. split; [simpl; lia|].
    intros Hlonger Hocc. cbn [contains] in Hocc. rewrite E in Hocc. simpl in Hocc.
    specialize (Hlt Hlonger Hocc). simpl. lia.
Qed.

(** When the new text ends with the old one, the old one still occurs after
    the replacement. *)
Lemma replace_scan_keeps a old x s :
  contains (a :: old) s = true →
  contains (a :: old) (replace_scan (a :: old) (x ++ a :: old) 0 s) = true.
Proof.
  induction s as [|c s IH]; [done|]. rewrite replace_scan_step.
  destruct (starts_with (a :: old) (c :: s)) eqn:E.
  - intros _. rewrite <-app_assoc. apply contains_app, contains_self.
  - intros Hocc. cbn [contains] in Hocc. rewrite E in Hocc.
    apply contains_cons_true, IH. done.
Qed.

End replace_more.

Section purpose_more.
Import UpdateTerraformDocs.

Lemma screengrab_anchor_cons : ∃ a old, screengrab_anchor = a :: old.
Proof. eexists _, _. vm_compute. reflexivity. Qed.

(** The purpose step: when it leaves a page alone, whether the anchor is
    still there, and how long the result is. *)
Lemma add_purpose_facts (d : updates_dict) (content : text) :
  (add_purpose d content = content
   ↔ truthy (purpose_addon d) && contains screengrab_anchor content = false) ∧
  contains screengrab_anchor (add_purpose d content)
    = contains screengrab_anchor content ∧
  length content ≤ length (add_purpose d content) ∧
  (length (add_purpose d content) = length content → add_purpose d content = content).
Proof.
  unfold add_purpose. destruct (truthy (purpose_addon d)); [|done].
  cbv zeta. rewrite str_replace_same. cbn [andb].
  destruct screengrab_anchor_cons as (a & old & Hanchor). rewrite Hanchor.
  cbn [str_replace].
  destruct (replace_scan_length a old (purpose_addon d ++ [nl] ++ a :: old) content)
    as [Hle Hlt].
  { rewrite !length_app. simpl. lia. }
  destruct (contains (a :: old) content) eqn:Hocc.
  - assert (length content
            < length (replace_scan (a :: old) (purpose_addon d ++ [nl] ++ a :: old) 0 content))
      as Hgrow.
    { apply Hlt; [|done]. rewrite !length_app. simpl. lia. }
    split_and!; [|  |lia|lia].
    + split; [|done]. intros Heq. rewrite Heq in Hgrow. lia.
    + rewrite (app_assoc (purpose_addon d) [nl]). by apply replace_scan_keeps.
  - pose proof (str_replace_absent (a :: old) (purpose_addon d ++ [nl] ++ a :: old)
                  content Hocc) as Hsame.
    cbn [str_replace] in Hsame. rewrite Hsame. done.
Qed.

(** X6: the purpose step changes a page exactly when the entry has an addon
    and ":::\n\n<Screengrab" occurs in the page; the anchor occurs in the
    result whenever it occurred in the page; the result is never shorter
    than the page. *)
Theorem X6_purpose_addon_step (d : updates_dict) (content : text) :
  (add_purpose d content = content
   ↔ truthy (purpose_addon d) && contains screengrab_anchor content = false) ∧
  contains screengrab_anchor (add_purpose d content)
    = contains screengrab_anchor content ∧
  length content ≤ length (add_purpose d content).
Proof.
  destruct (add_purpose_facts d content) as (Hfix & Hocc & Hle & _). done.
Qed.

(** What [update_file] makes of a content grows with every change. *)
Lemma transform_grows (d : updates_dict) (content : text) :
  length content ≤ length (transform d content) ∧
  (length (transform d content) = length content ↔ transform d content = content) ∧
  (transform d (transform d content) = transform d content
   ↔ transform d content = content).
Proof.
  assert (∀ c, length c ≤ length (transform d c) ∧
               (length (transform d c) = length c →
                add_purpose d c = c ∧ add_info_box d c = c)) as Hstep.
  { intros c. unfold transform.
    destruct (add_purpose_facts d c) as (_ & _ & Hle & Hsame).
    destruct (add_info_box_shape d (add_purpose d c)) as [Hkeep Hlen].
    split; [lia|]. intros Heq.
    assert (add_purpose d c = c) as Hp by (apply Hsame; lia).
    rewrite Hp in *. split; [done|].
    destruct (truthy (info_box d) && _); [lia|done]. }
  assert (∀ c, length (transform d c) = length c → transform d c = c) as Hfix.
  { intros c [Hp Hi]%Hstep. unfold transform. by rewrite Hp, Hi. }
  split_and!.
  - apply Hstep.
  - split; [apply Hfix|by intros ->].
  - split; [|intros Heq; by rewrite !Heq].
    intros Hagain. apply (f_equal length) in Hagain.
    apply Hstep in Hagain as [Hp Hi].
    unfold transform in Hp, Hi |- *.
    (* the info box did not fire on the result, so it did not fire before *)
    assert (add_info_box d (add_purpose d content) = add_purpose d content) as Hi0.
    { destruct (add_info_box_shape d (add_purpose d content)) as [_ Hlen0].
      destruct (add_info_box_shape d (add_info_box d (add_purpose d content)))
        as [_ Hlen1].
      rewrite add_info_box_anchor, Hi in Hlen1.
      destruct (add_info_box_shape d (add_purpose d content)) as [Hkeep0 _].
      destruct (truthy (info_box d) && _); [lia|done]. }
    rewrite Hi0 in Hp |- *.
    (* the addon did not fire on the result, so it did not fire before *)
    destruct (add_purpose_facts d (add_purpose d content)) as ([Hnone _] & _).
    destruct (add_purpose_facts d content) as ([_ Hback] & Hocc & _).
    apply Hback. rewrite <-Hocc. by apply Hnone.
Qed.

(** X7: what [update_file] makes of a content is never shorter than the
    content and is as long only when it is the content; making it twice
    gives the same as making it once only when making it once changed
    nothing. *)
Theorem X7_update_never_settles (d : updates_dict) (content : text) :
  length content ≤ length (transform d content) ∧
  (length (transform d content) = length content ↔ transform d content = content) ∧
  (transform d (transform d content) = transform d content
   ↔ transform d content = content).
Proof. exact (transform_grows d content). Qed.

End purpose_more.

(** ** Removals and the blank-line step *)

Section removals.
Import CleanPlanfiles.
Implicit Types (r : regex) (s : text).

(** Substituting the empty text only deletes. *)
Lemma sub_scan_empty_sublist r skip s : sub_scan r [] skip s `sublist_of` s.
Proof.
  revert skip. induction s as [|c s IH]; intros skip.
  - destruct skip; [|done]. simpl.
    destruct (match_at r []) as [[|n]|]; [|done..].
    by destruct (match_nonempty_at r []) as [[|n]|].
  - destruct skip as [|skip]; [|simpl; apply sublist_cons, IH].
    simpl. destruct (match_at r (c :: s)) as [[|n]|].
    + destruct (match_nonempty_at r (c :: s)) as [[|n]|]; simpl;
        (apply sublist_skip, IH) || apply sublist_cons, IH.
    + apply sublist_cons, IH.
    + apply sublist_skip, IH.
Qed.

(** X8: the three removal steps only delete: what each of them gives is the
    page with some characters left out, in the same order, and so is never
    longer than the page. *)
Theorem X8_removals_only_delete s :
  remove_ci_cd_section s `sublist_of` s ∧
  remove_production_section s `sublist_of` s ∧
  remove_gitlab_passages s `sublist_of` s ∧
  length (remove_gitlab_passages (remove_production_section (remove_ci_cd_section s)))
    ≤ length s.
Proof.
  split_and!; try apply sub_scan_empty_sublist.
  pose proof (sub_scan_empty_sublist ci_cd_pattern 0 s) as H1%sublist_length.
  pose proof (sub_scan_empty_sublist production_pattern 0 (remove_ci_cd_section s))
    as H2%sublist_length.
  pose proof (sub_scan_empty_sublist gitlab_pattern 0
                (remove_production_section (remove_ci_cd_section s)))
    as H3%sublist_length.
  unfold remove_gitlab_passages, remove_production_section, remove_ci_cd_section,
    re_sub in *. lia.
Qed.

Lemma no_triple_no_match s :
  contains [nl; nl; nl] s = false → re_search blank_lines_pattern s = None.
Proof.
  induction s as [|c s IH].
  - intros _. cbn [re_search]. by rewrite match_at_blank_lines.
  - intros [Hhead Htail]%orb_false_iff. cbn [re_search].
    rewrite match_at_blank_lines.
    rewrite starts_with_three_newlines in Hhead.
    apply bool_decide_eq_false in Hhead. rewrite decide_False by done.
    by rewrite IH.
Qed.

Lemma collapse_runs_keeps run s :
  filter (λ c, c ≠ nl) (collapse_runs run s) = filter (λ c, c ≠ nl) s ∧
  length (collapse_runs run s) ≤ run + length s.
Proof.
  assert (∀ n, filter (λ c, c ≠ nl) (replicate n nl) = []) as Hnl.
  { induction n as [|n IH]; [done|]. simpl. by rewrite filter_cons_False by auto. }
  assert (∀ n, length (flush_run n) ≤ n) as Hflush.
  { intros n. unfold flush_run. rewrite length_replicate. case_decide; lia. }
  revert run. induction s as [|c s IH]; intros run; simpl.
  - unfold flush_run. rewrite Hnl. split; [done|]. specialize (Hflush run).
    unfold flush_run in Hflush. lia.
  - case_bool_decide as Hc.
    + subst c. rewrite filter_cons_False by auto.
      destruct (IH (S run)) as [-> Hlen]. split; [done|lia].
    + rewrite filter_app, filter_cons_True by done.
      unfold flush_run at 1. rewrite Hnl. destruct (IH 0) as [-> Hlen].
      split; [by rewrite filter_cons_True by done|].
      rewrite length_app. specialize (Hflush run). simpl. lia.
Qed.

(** X9: the last substitution is idempotent: applied to its own result it
    changes nothing. *)
Theorem X9_blank_lines_idempotent s :
  re_sub blank_lines_pattern [nl; nl] (re_sub blank_lines_pattern [nl; nl] s)
    = re_sub blank_lines_pattern [nl; nl] s.
Proof.
  apply re_sub_no_match, no_triple_no_match.
  rewrite re_sub_blank_lines_collapse. apply collapse_runs_no_triple.
Qed.

(** X10: the last substitution deletes newlines and nothing else: the
    characters that are not newlines are the same, in the same order, before
    and after, and the result is not longer. *)
Theorem X10_blank_lines_keep_text s :
  filter (λ c, c ≠ nl) (re_sub blank_lines_pattern [nl; nl] s)
    = filter (λ c, c ≠ nl) s ∧
  length (re_sub blank_lines_pattern [nl; nl] s) ≤ length s.
Proof.
  rewrite re_sub_blank_lines_collapse. unfold collapse_blank_lines.
  destruct (collapse_runs_keeps 0 s) as [Hsame Hlen]. split; [done|lia].
Qed.

End removals.

(** ** The record of a run of the table-driven script *)

Section update_report.
Import UpdateTerraformDocs.
Implicit Types (entries : list (string * updates_dict)) (fs : gmap string text).

(** What the loop prints and writes, read off the disk [fs0] that agrees
    with the disk of the loop on the targets still to visit. *)
Lemma update_loop_report entries n fs fs0 :
  NoDup (target ∘ fst <$> entries) →
  (∀ e, e ∈ entries → fs !! target e.1 = fs0 !! target e.1) →
  let o := update_loop entries n fs in
  omap checked (log o) = entries.*1 ∧
  omap verdict (log o) = (λ e, (e.1, changes fs0 e)) <$> entries ∧
  omap warned (log o) = (filter (λ e, fs0 !! target e.1 = None) entries).*1 ∧
  omap written (log o) =
    omap (λ e, match fs0 !! target e.1 with
               | Some content =>
                   if bool_decide (transform e.2 content ≠ content)
                   then Some (target e.1, transform e.2 content) else None
               | None => None
               end) entries.
Proof.
  revert n fs. induction entries as [|[filename d] entries IH]; intros n fs Hnodup Hsame.
  { done. }
  rewrite fmap_cons in Hnodup. apply NoDup_cons in Hnodup as [Hfresh Hnodup].
  simpl in Hfresh.
  pose proof (Hsame (filename, d) (list_elem_of_here _ _)) as Hhead. simpl in Hhead.
  assert (∀ e, e ∈ entries → target e.1 ≠ target filename) as Hne.
  { intros e He Heq. apply Hfresh. rewrite <-Heq.
    apply (list_elem_of_fmap_2 (target ∘ fst) _ _ He). }
  cbv zeta. rewrite update_loop_step.
  destruct (fs !! target filename) as [content|] eqn:E; [case_bool_decide as Hch|].
  - destruct (IH (n + 1) (<[target filename := transform d content]> fs) Hnodup)
      as (Hchecked & Hverdict & Hwarned & Hwritten).
    { intros e He. rewrite lookup_insert_ne by (by apply not_eq_sym, Hne).
      apply Hsame. by right. }
    cbn [log omap list_omap checked verdict warned written].
    rewrite Hchecked, Hverdict, Hwarned, Hwritten.
    rewrite filter_cons_False by (cbn [fst]; by rewrite <-Hhead).
    assert (changes fs0 (filename, d) = true) as Hyes.
    { unfold changes. cbn [fst snd]. rewrite <-Hhead. by apply bool_decide_eq_true. }
    rewrite !fmap_cons. cbn [omap list_omap fst snd]. rewrite Hyes, <-Hhead.
    by rewrite bool_decide_eq_true_2 by done.
  - destruct (IH n fs Hnodup) as (Hchecked & Hverdict & Hwarned & Hwritten).
    { intros e He. apply Hsame. by right. }
    cbn [log omap list_omap checked verdict warned written].
    rewrite Hchecked, Hverdict, Hwarned, Hwritten.
    rewrite filter_cons_False by (cbn [fst]; by rewrite <-Hhead).
    assert (changes fs0 (filename, d) = false) as Hno.
    { unfold changes. cbn [fst snd]. rewrite <-Hhead. apply bool_decide_eq_false. by intros H. }
    rewrite !fmap_cons. cbn [omap list_omap fst snd]. rewrite Hno, <-Hhead.
    rewrite bool_decide_eq_false_2; [done|]. by intros H.
  - destruct (IH n fs Hnodup) as (Hchecked & Hverdict & Hwarned & Hwritten).
    { intros e He. apply Hsame. by right. }
    cbn [log omap list_omap checked verdict warned written].
    rewrite Hchecked, Hverdict, Hwarned, Hwritten.
    rewrite filter_cons_True by (cbn [fst]; by rewrite <-Hhead).
    assert (changes fs0 (filename, d) = false) as Hno.
    { unfold changes. cbn [fst snd]. by rewrite <-Hhead. }
    rewrite !fmap_cons. cbn [omap list_omap fst snd]. by rewrite Hno, <-Hhead.
Qed.

(** The same for the script: what comes before and after the loop adds
    nothing of these four kinds. *)
Lemma script_for_report entries fs :
  NoDup (target ∘ fst <$> entries) →
  let o := script_for entries fs in
  omap checked (log o) = entries.*1 ∧
  omap verdict (log o) = (λ e, (e.1, changes fs e)) <$> entries ∧
  omap warned (log o) = (filter (λ e, fs !! target e.1 = None) entries).*1 ∧
  omap written (log o) =
    omap (λ e, match fs !! target e.1 with
               | Some content =>
                   if bool_decide (transform e.2 content ≠ content)
                   then Some (target e.1, transform e.2 content) else None
               | None => None
               end) entries.
Proof.
  intros Hnodup o. subst o.
  destruct (update_loop_frame entries 0 fs) as ([m Hres] & _).
  rewrite (script_for_run entries fs m Hres). cbn [log].
  destruct (update_loop_report entries 0 fs fs Hnodup) as (H1 & H2 & H3 & H4); [done|].
  cbn [omap list_omap checked verdict warned written]. rewrite !omap_app.
  cbn [omap list_omap checked verdict warned written].
  rewrite H1, H2, H3, H4.
  case_bool_decide; cbn [omap list_omap checked verdict warned written];
    by rewrite !app_nil_r.
Qed.

(** The disk the script leaves, for a table with pairwise different targets
    none of which is the analysis file. *)
Lemma script_for_disk entries fs :
  NoDup (target ∘ fst <$> entries) →
  analysis_file ∉ (target ∘ fst <$> entries) →
  let o := script_for entries fs in
  (∀ filename d, (filename, d) ∈ entries →
     disk o !! target filename = transform d <$> fs !! target filename) ∧
  (∀ p, p ∉ (target ∘ fst <$> entries) → p ≠ analysis_file →
     disk o !! p = fs !! p).
Proof.
  intros Hnodup Hanalysis o. subst o.
  destruct (update_loop_count entries 0 fs Hnodup) as (Hres & _ & Hother & Hin).
  rewrite (script_for_run entries fs _ Hres). cbn [disk]. split.
  - intros filename d He. rewrite lookup_delete_ne.
    + apply (Hin _ He).
    + intros Heq. apply Hanalysis. rewrite Heq.
      apply (list_elem_of_fmap_2 (target ∘ fst) _ _ He).
  - intros p Hp Hne. rewrite lookup_delete_ne by done. by apply Hother.
Qed.

(** A file the script warns about is reported as needing no changes. *)
Lemma script_for_missing entries fs :
  NoDup (target ∘ fst <$> entries) →
  let o := script_for entries fs in
  omap warned (log o) = (filter (λ e, fs !! target e.1 = None) entries).*1 ∧
  (∀ filename, filename ∈ omap warned (log o) →
     (filename, false) ∈ omap verdict (log o)).
Proof.
  intros Hnodup o. subst o.
  destruct (script_for_report entries fs Hnodup) as (_ & H2 & H3 & _).
  split; [done|]. intros filename. rewrite H2, H3.
  intros (e & -> & [Hnone He]%list_elem_of_filter)%list_elem_of_fmap.
  apply list_elem_of_fmap. exists e. split; [|done].
  unfold changes. by rewrite Hnone.
Qed.

(** X11: the disk the script leaves: every target of the table holds what
    [update_file] makes of what it held, and is absent if it was absent;
    every other path but the analysis file is as it was. *)
Theorem X11_update_script_disk (fs : gmap string text) :
  (∀ filename d, (filename, d) ∈ updates →
     disk (script fs) !! target filename = transform d <$> fs !! target filename) ∧
  (∀ p, p ∉ (target ∘ fst <$> updates) → p ≠ analysis_file →
     disk (script fs) !! p = fs !! p).
Proof. exact (script_for_disk updates fs updates_targets_nodup analysis_file_no_target). Qed.

(** X12: the script prints one "Checking" line for each entry of the table,
    in the order of the table, and one verdict for each, in the same order:
    "Updated" for the entries whose file [update_file] changes on the disk
    the script starts with, "No changes needed" for the others. *)
Theorem X12_update_script_report (fs : gmap string text) :
  omap checked (log (script fs)) = updates.*1 ∧
  omap verdict (log (script fs)) = (λ e, (e.1, changes fs e)) <$> updates.
Proof.
  destruct (script_for_report updates fs updates_targets_nodup) as (H1 & H2 & _).
  exact (conj H1 H2).
Qed.

(** X13: the "File not found" lines name the entries whose target is not on
    the disk, in the order of the table, and each file so named also gets
    the verdict "No changes needed". *)
Theorem X13_missing_files_reported (fs : gmap string text) :
  omap warned (log (script fs))
    = (filter (λ e, fs !! target e.1 = None) updates).*1 ∧
  (∀ filename, filename ∈ omap warned (log (script fs)) →
     (filename, false) ∈ omap verdict (log (script fs))).
Proof. exact (script_for_missing updates fs updates_targets_nodup). Qed.

(** X14: the writes of the script, in order: one for each entry whose file
    is on the disk at the start and differs from what [update_file] makes
    of it, to the target of the entry, with that text; no other write. *)
Theorem X14_update_script_writes (fs : gmap string text) :
  omap written (log (script fs)) =
    omap (λ e, match fs !! target e.1 with
               | Some content =>
                   if bool_decide (transform e.2 content ≠ content)
                   then Some (target e.1, transform e.2 content) else None
               | None => None
               end) updates.
Proof.
  destruct (script_for_report updates fs updates_targets_nodup) as (_ & _ & _ & H4).
  exact H4.
Qed.

End update_report.

(** ** The record of a run of the page-cleaning script *)

Section clean_report.
Import CleanPlanfiles.

(** X15: a run that finds the page writes once, to the page, before it
    prints anything; it prints its five lines whatever the page held and
    whatever the pipeline changed; every other file is as it was and no file
    appears or disappears. *)
Theorem X15_clean_script_record (fs : gmap string text) (content : text) :
  fs !! file_path = Some content →
  let o := script fs in
  (∃ prints, log o = EvWrite file_path (transform content) :: prints ∧
             omap written prints = []) ∧
  omap printed (log o) =
    [MsgCleaned; MsgRemovedCiCd; MsgEnhanced; MsgFocused; MsgAddedExamples] ∧
  (∀ p, p ≠ file_path → disk o !! p = fs !! p) ∧
  dom (disk o) = dom fs.
Proof.
  intros Hfs o. subst o. rewrite (clean_script_present fs content Hfs).
  cbn [log disk]. split_and!.
  - by eexists.
  - done.
  - intros p Hp. by rewrite lookup_insert_ne.
  - apply dom_insert_lookup_L. by eexists.
Qed.

Lemma X15_witness :
  let o := script (<[file_path := txt "# Planfiles"]> ∅) in
  (∃ prints, log o = EvWrite file_path (transform (txt "# Planfiles")) :: prints ∧
             omap written prints = []) ∧
  omap printed (log o) =
    [MsgCleaned; MsgRemovedCiCd; MsgEnhanced; MsgFocused; MsgAddedExamples] ∧
  (∀ p, p ≠ file_path → disk o !! p = (<[file_path := txt "# Planfiles"]> ∅ : gmap string text) !! p) ∧
  dom (disk o) = dom (<[file_path := txt "# Planfiles"]> ∅ : gmap string text).
Proof.
  apply (X15_clean_script_record (<[file_path := txt "# Planfiles"]> ∅) (txt "# Planfiles")).
  reflexivity.
Defined.

End clean_report.

(** ** The paths of the table-driven script *)

Section paths.
Import UpdateTerraformDocs.

Lemma string_app_inj (a x y : string) : a +:+ x = a +:+ y → x = y.
Proof. induction a as [|c a IH]; simpl; [done|]. intros [= Heq]. by apply IH. Qed.

Lemma path_join_relative (a b : string) :
  isabs b = false →
  path_join a b =
    match reverse (String.list_ascii_of_string a) with
    | [] => b
    | c :: _ => if bool_decide (c = "/"%char) then a +:+ b else a +:+ "/" +:+ b
    end.
Proof.
  destruct b as [|c b]; [done|].
  destruct c as [[] [] [] [] [] [] [] []]; done.
Qed.

Lemma base_path_end :
  ∃ c rest, reverse (String.list_ascii_of_string base_path) = c :: rest ∧ c ≠ "/"%char.
Proof. eexists _, _. split; [vm_compute; reflexivity|done]. Qed.

Lemma target_relative (filename : string) :
  isabs filename = false → target filename = base_path +:+ "/" +:+ filename.
Proof.
  intros Hrel. unfold target. rewrite path_join_relative by done.
  destruct base_path_end as (c & rest & -> & Hc).
  by rewrite bool_decide_eq_false_2.
Qed.

(** X16: for file names that do not start with "/", the path [update_file]
    opens is the base path, a "/" and the file name, and two file names give
    the same path only when they are the same name. *)
Theorem X16_target_injective (f g : string) :
  isabs f = false → isabs g = false →
  target f = base_path +:+ "/" +:+ f ∧
  (target f = target g ↔ f = g).
Proof.
  intros Hf Hg. split; [by apply target_relative|].
  split; [|by intros ->].
  rewrite !target_relative by done.
  intros Heq%string_app_inj. by apply (string_app_inj "/").
Qed.

Lemma X16_witness :
  target "terraform-plan.mdx" = base_path +:+ "/" +:+ "terraform-plan.mdx" ∧
  (target "terraform-plan.mdx" = target "terraform-apply.mdx"
   ↔ "terraform-plan.mdx" = "terraform-apply.mdx").
Proof.
  apply (X16_target_injective "terraform-plan.mdx" "terraform-apply.mdx"); reflexivity.
Defined.

End paths.

(** ** The section patterns *)

Section section_patterns.
Import CleanPlanfiles.
Implicit Types (heading p s t w x y : text) (k : cont).

Lemma rmatch_lit p s k :
  rmatch (lit p) s k = if starts_with p s then k (drop (length p) s) else None.
Proof.
  revert s. induction p as [|a p IH]; intros s; [done|].
  destruct s as [|b s]; [done|].
  cbn [lit rmatch in_class starts_with length drop].
  rewrite (bool_decide_ext (b = a) (a = b)) by (split; by intros ->).
  destruct (bool_decide (a = b)); [apply IH|done].
Qed.

Lemma lazy_star_ext cl s k k' :
  (∀ x, k x = k' x) → lazy_star cl s k = lazy_star cl s k'.
Proof.
  intros Hk. induction s as [|c s IH]; cbn [lazy_star]; rewrite Hk; [done|].
  by rewrite IH.
Qed.

Lemma section_end_nil : section_end [] = true.
Proof. reflexivity. Qed.

Lemma section_end_long c c' s :
  section_end (c :: c' :: s) = starts_with (txt "## ") (c :: c' :: s).
Proof.
  unfold section_end. rewrite !bool_decide_eq_false_2 by done.
  by rewrite !orb_false_r.
Qed.

(** The lookahead holds where the section ends. *)
Lemma rmatch_section_end s k :
  rmatch (Ahead (Alt (lit (txt "## ")) Eos)) s k =
    if section_end s then k s else None.
Proof.
  cbn [rmatch]. rewrite rmatch_lit. unfold section_end.
  destruct (starts_with (txt "## ") s) eqn:E; [done|]. cbn [orb].
  destruct s as [|c [|c' s]].
  - done.
  - rewrite (bool_decide_eq_false_2 ([c] = [])) by done. cbn [orb].
    rewrite (bool_decide_ext ([c] = [nl]) (c = nl))
      by (split; [by intros [= ->]|by intros ->]).
    by destruct (bool_decide (c = nl)).
  - by rewrite !bool_decide_eq_false_2 by done.
Qed.

(** [.*?] stops at the first place where the section ends. *)
Lemma lazy_star_section s :
  lazy_star CAny s (λ s', if section_end s' then Some s' else None)
    = Some (drop (section_body s) s).
Proof.
  induction s as [|c s IH]; [done|]. cbn [lazy_star section_body].
  destruct (section_end (c :: s)); [done|]. cbn [in_class drop]. apply IH.
Qed.

Lemma section_body_le s : section_body s ≤ length s.
Proof.
  induction s as [|c s IH]; cbn [section_body].
  - by destruct (section_end []).
  - destruct (section_end (c :: s)); simpl; lia.
Qed.

Lemma section_body_spec s :
  section_end (drop (section_body s) s) = true ∧
  (∀ j, j < section_body s → section_end (drop j s) = false).
Proof.
  induction s as [|c s [IHend IHmin]]; cbn [section_body].
  - split; [done|]. rewrite section_end_nil. intros j Hj. simpl in Hj. lia.
  - destruct (section_end (c :: s)) eqn:E.
    + split; [done|]. intros j Hj. lia.
    + split; [done|]. intros [|j] Hj; [done|]. apply IHmin. lia.
Qed.

Lemma starts_with_length p s : starts_with p s = true → length p ≤ length s.
Proof.
  intros Hs%starts_with_app. apply (f_equal length) in Hs.
  rewrite length_app in Hs. lia.
Qed.

(** The section pattern at the head of a text. *)
Lemma match_at_section heading s :
  match_at (section_pattern heading) s = section_at heading s.
Proof.
  unfold match_at, section_at, section_pattern.
  change (rmatch (seqs [lit heading; LazyStar CAny; Ahead (Alt (lit (txt "## ")) Eos)])
            s Some)
    with (rmatch (lit heading) s
            (λ s1, lazy_star CAny s1
               (λ s2, rmatch (Ahead (Alt (lit (txt "## ")) Eos)) s2 (λ s3, Some s3)))).
  rewrite rmatch_lit. destruct (starts_with heading s) eqn:E; [|done].
  rewrite (lazy_star_ext _ _ _ (λ s', if section_end s' then Some s' else None))
    by (intros x; apply rmatch_section_end).
  rewrite lazy_star_section. cbn [fmap option_fmap option_map]. f_equal.
  apply starts_with_length in E.
  pose proof (section_body_le (drop (length heading) s)) as Hle.
  rewrite length_drop in Hle. rewrite !length_drop. lia.
Qed.

(** X17: the patterns of the CI/CD Integration and of the Best Practices
    section match at the head of a text exactly when the text starts with
    the heading, and the match is the heading and what follows it up to the
    first place where "## " starts, the text ends, or its last newline
    stands; since "## " also starts one character into "### ", a section
    ends at its first subheading. *)
Theorem X17_section_patterns s :
  match_at ci_cd_pattern s = section_at (txt "## CI/CD Integration") s ∧
  match_at old_practices s = section_at (txt "## Best Practices") s ∧
  section_end (drop (section_body s) s) = true ∧
  (∀ j, j < section_body s → section_end (drop j s) = false) ∧
  (∀ t, section_end (txt "## " ++ t) = true ∧ section_body (txt "### " ++ t) = 1).
Proof.
  split_and!.
  - exact (match_at_section (txt "## CI/CD Integration") s).
  - exact (match_at_section (txt "## Best Practices") s).
  - apply section_body_spec.
  - apply section_body_spec.
  - intros t. split.
    + change (txt "## " ++ t) with ("#" :: "#" :: " " :: t)%char.
      by rewrite section_end_long.
    + change (txt "### " ++ t) with ("#" :: "#" :: "#" :: " " :: t)%char.
      cbn [section_body]. rewrite !section_end_long. by vm_compute.
Qed.

End section_patterns.

(** ** Substituting a section *)

Section section_scans.
Import CleanPlanfiles.
Implicit Types (heading repl mid tail p a s t w x y z : text).

Lemma consumes_section heading :
  heading ≠ [] → consumes (section_pattern heading) = true.
Proof. by destruct heading. Qed.

(** One step of the substitution of a section. *)
Lemma section_sub_step heading repl s :
  heading ≠ [] →
  re_sub (section_pattern heading) repl s =
    if starts_with heading s
    then repl ++ re_sub (section_pattern heading) repl
                   (drop (section_body (drop (length heading) s))
                         (drop (length heading) s))
    else match s with
         | [] => []
         | c :: s' => c :: re_sub (section_pattern heading) repl s'
         end.
Proof.
  intros Hne. rewrite re_sub_step by (by apply consumes_section).
  rewrite match_at_section. unfold section_at.
  destruct (starts_with heading s); [|done]. by rewrite drop_drop.
Qed.

Lemma starts_with_long p a x :
  length p ≤ length a → starts_with p (a ++ x) = starts_with p a.
Proof.
  revert a. induction p as [|c p IH]; intros [|b a] Hlen; simpl in *; try done; try lia.
  by rewrite IH by lia.
Qed.

Lemma starts_with_short p a x :
  length a < length p → starts_with p (a ++ x) = true →
  starts_with (drop (length a) p) x = true.
Proof.
  revert a. induction p as [|c p IH]; intros [|b a] Hlen; simpl in *; try done; try lia.
  intros [_ Ht]%andb_true_iff. apply IH; [lia|done].
Qed.

Lemma starts_with_either p a x :
  starts_with p (a ++ x) = true → starts_with p a = true ∨ starts_with a p = true.
Proof.
  revert a. induction p as [|c p IH]; intros [|b a]; simpl; auto.
  intros [Hh%bool_decide_eq_true Ht]%andb_true_iff. subst b.
  rewrite !bool_decide_eq_true_2 by done. simpl. by apply IH.
Qed.

(** Two texts that start a third one: one of them starts the other. *)
Lemma starts_with_compare a b t :
  starts_with a t = true → starts_with b t = true →
  starts_with a b = true ∨ starts_with b a = true.
Proof.
  revert b t. induction a as [|c a IH]; intros [|d b] [|e t]; simpl; auto; try done.
  intros [Hc%bool_decide_eq_true Ha]%andb_true_iff
         [Hd%bool_decide_eq_true Hb]%andb_true_iff. subst c d.
  rewrite !bool_decide_eq_true_2 by done. simpl. by apply (IH b t).
Qed.

Lemma no_start_nil heading s : no_start heading [] s.
Proof. intros [|b w1] [|c w2] Heq Hne; done. Qed.

Lemma no_start_cons heading c w s :
  no_start heading (c :: w) s ↔
  starts_with heading (c :: w ++ s) = false ∧ no_start heading w s.
Proof.
  split.
  - intros Hw. split; [by apply (Hw [] (c :: w))|].
    intros w1 w2 -> Hne. by apply (Hw (c :: w1) w2).
  - intros [Hh Ht] [|b w1] w2 Heq Hne; simpl in Heq.
    + by subst w2.
    + injection Heq as -> ->. by apply (Ht w1 w2).
Qed.

Lemma no_start_snoc heading w c s :
  no_start heading w (c :: s) → starts_with heading (c :: s) = false →
  no_start heading (w ++ [c]) s.
Proof.
  intros Hw Hc. induction w as [|b w IH].
  - apply no_start_cons. split; [done|apply no_start_nil].
  - apply no_start_cons in Hw as [Hh Ht]. apply no_start_cons. split.
    + by rewrite <-app_assoc.
    + by apply IH.
Qed.

(** Occurrences that start within [w] only read the heading that follows
    [w], not what follows the heading. *)
Lemma no_start_same_head heading w a b :
  no_start heading w (heading ++ a) → no_start heading w (heading ++ b).
Proof.
  intros Hw w1 w2 Heq Hne. specialize (Hw w1 w2 Heq Hne).
  rewrite app_assoc in Hw |- *.
  rewrite starts_with_long in Hw |- * by (rewrite length_app; lia). done.
Qed.

Lemma no_start_suffixes heading p y :
  Forall (λ j, starts_with heading (drop j p) = false
               ∧ starts_with (drop j p) heading = false) (seq 0 (length p)) →
  no_start heading p y.
Proof.
  intros Hall w1 w2 -> Hne.
  destruct (starts_with heading (w2 ++ y)) eqn:E; [|done].
  rewrite Forall_forall in Hall. destruct (Hall (length w1)) as [H1 H2].
  { apply elem_of_seq. rewrite length_app. destruct w2; [done|]. simpl. lia. }
  rewrite drop_app_length in H1, H2.
  apply starts_with_either in E as [E|E]; congruence.
Qed.

(** The substitution copies a text in which no occurrence starts. *)
Lemma sub_copy heading repl w y :
  heading ≠ [] → no_start heading w y →
  re_sub (section_pattern heading) repl (w ++ y)
    = w ++ re_sub (section_pattern heading) repl y.
Proof.
  intros Hne. induction w as [|c w IH]; [done|].
  intros [Hh Ht]%no_start_cons. rewrite section_sub_step by done.
  cbn [app]. rewrite Hh. f_equal. by apply IH.
Qed.

Lemma no_start_contains heading w x :
  no_start heading w x → contains heading x = false →
  contains heading (w ++ x) = false.
Proof.
  induction w as [|c w IH]; [done|]. intros [Hh Ht]%no_start_cons Hx.
  cbn [app contains]. rewrite Hh. by apply IH.
Qed.

Lemma search_contains heading x :
  re_search (section_pattern heading) x = None ↔ contains heading x = false.
Proof.
  induction x as [|c x IH]; cbn [re_search contains];
    rewrite match_at_section; unfold section_at;
    destruct (starts_with heading _); cbn [orb]; try done.
  rewrite <-IH. by destruct (re_search (section_pattern heading) x).
Qed.

(** The first occurrence of the heading. *)
Lemma first_occurrence heading s :
  contains heading s = true →
  ∃ pre rest, s = pre ++ rest ∧ starts_with heading rest = true
              ∧ no_start heading pre rest.
Proof.
  induction s as [|c s IH]; cbn [contains].
  - rewrite orb_false_r. intros Hs. exists [], [].
    split; [done|]. split; [done|apply no_start_nil].
  - destruct (starts_with heading (c :: s)) eqn:E; cbn [orb].
    + intros _. exists [], (c :: s). split; [done|]. split; [done|apply no_start_nil].
    + intros (pre & rest & -> & Hr & Hn)%IH. exists (c :: pre), rest.
      split; [done|]. split; [done|]. by apply no_start_cons.
Qed.

(** What can start where a section ends. *)
Lemma section_end_prefix t p :
  section_end t = true → starts_with p t = true →
  p = [] ∨ p = [nl] ∨ starts_with p (txt "## ") = true
  ∨ starts_with (txt "## ") p = true.
Proof.
  unfold section_end. intros [[Ht|Ht]%orb_true_iff|Ht]%orb_true_iff Hp.
  - destruct (starts_with_compare _ _ _ Hp Ht); auto.
  - apply bool_decide_eq_true in Ht. subst t. left. by destruct p.
  - apply bool_decide_eq_true in Ht. subst t.
    destruct p as [|c [|c' p]]; [by left| |].
    + right. left. simpl in Hp. rewrite andb_true_r in Hp.
      apply bool_decide_eq_true in Hp. by subst c.
    + simpl in Hp. by rewrite andb_false_r in Hp.
Qed.

Lemma no_junction_suffixes heading :
  Forall (λ k, drop k heading ≠ [nl]
               ∧ starts_with (drop k heading) (txt "## ") = false
               ∧ starts_with (txt "## ") (drop k heading) = false)
         (seq 1 (length heading - 1)) →
  no_junction heading.
Proof.
  intros Hall k t Hk Ht.
  destruct (starts_with (drop k heading) t) eqn:E; [|done].
  rewrite Forall_forall in Hall. destruct (Hall k) as (H1 & H2 & H3).
  { apply elem_of_seq. lia. }
  destruct (section_end_prefix _ _ Ht E) as [Hnil|[?|[?|?]]]; try congruence.
  apply (f_equal length) in Hnil. rewrite length_drop in Hnil. simpl in Hnil. lia.
Qed.

(** Removing the sections leaves no heading, whatever was written before
    the place the scan has reached. *)
Lemma section_removed heading s w :
  heading ≠ [] → no_junction heading →
  no_start heading w s →
  contains heading (w ++ re_sub (section_pattern heading) [] s) = false.
Proof.
  intros Hne Hj. revert w.
  induction s as [s IH] using (induction_ltof1 _ length). unfold ltof in IH.
  intros w Hw. rewrite section_sub_step by done.
  destruct (starts_with heading s) eqn:E.
  - cbn [app]. apply IH.
    + apply starts_with_length in E. rewrite !length_drop.
      destruct heading; [done|]. simpl in *. lia.
    + intros w1 w2 -> Hw2.
      destruct (decide (length heading ≤ length w2)) as [Hlong|Hshort].
      * rewrite starts_with_long by done.
        rewrite <-(starts_with_long _ _ s) by done. by apply (Hw w1 w2).
      * destruct (starts_with heading (w2 ++ _)) eqn:Et; [|done].
        apply starts_with_short in Et; [|lia].
        rewrite Hj in Et; [done| |apply section_body_spec].
        destruct w2; [done|]. simpl in *. lia.
  - destruct s as [|c s].
    + apply no_start_contains; [done|]. by destruct heading.
    + rewrite (cons_middle c w), app_assoc. apply IH; [simpl; lia|].
      by apply no_start_snoc.
Qed.

(** A heading and a replacement that starts with the heading, goes on with
    [mid] and ends with [tail]: the match at the replacement is the heading
    and [mid], and the scan copies [tail]. *)
Lemma replaced_again heading mid tail z :
  heading ≠ [] →
  (∀ y, no_start heading tail y) →
  (∀ y, section_body (mid ++ tail ++ y) = length mid) →
  re_sub (section_pattern heading) (heading ++ mid ++ tail)
      ((heading ++ mid ++ tail) ++ z)
    = (heading ++ mid ++ tail)
        ++ tail ++ re_sub (section_pattern heading) (heading ++ mid ++ tail) z.
Proof.
  intros Hne Htail Hbody. rewrite section_sub_step by done.
  rewrite <-!app_assoc, starts_with_self, drop_app_length, Hbody, drop_app_length.
  by rewrite sub_copy by done.
Qed.

(** No text is [tail] followed by what the substitution makes of it. *)
Lemma no_fixed_tail heading repl tail x :
  heading ≠ [] → tail ≠ [] →
  (∀ y, no_start heading tail y) →
  x ≠ tail ++ re_sub (section_pattern heading) repl x.
Proof.
  intros Hne Hpos Htail.
  induction x as [x IH] using (induction_ltof1 _ length). unfold ltof in IH.
  intros Hx. apply (IH (re_sub (section_pattern heading) repl x)).
  - apply (f_equal length) in Hx. rewrite length_app in Hx.
    destruct tail; [done|]. simpl in *. lia.
  - rewrite <-sub_copy by done. by rewrite <-Hx.
Qed.

(** Such a replacement changes every text that holds the heading, and
    changes what it made of it again. *)
Lemma replacement_never_settles heading mid tail s :
  heading ≠ [] → tail ≠ [] →
  (∀ y, no_start heading tail y) →
  (∀ y, section_body (mid ++ tail ++ y) = length mid) →
  let f := re_sub (section_pattern heading) (heading ++ mid ++ tail) in
  (f s = s ↔ contains heading s = false) ∧
  (f (f s) = f s ↔ contains heading s = false).
Proof.
  intros Hne Hpos Htail Hbody f.
  assert (contains heading s = false → f s = s) as Hid.
  { intros Hs. by apply re_sub_no_match, search_contains. }
  destruct (contains heading s) eqn:Hs; [|by rewrite !Hid].
  apply first_occurrence in Hs as (pre & rest & -> & Hrest & Hpre).
  pose proof (starts_with_app _ _ Hrest) as Hsplit.
  set (rest0 := drop (length heading) rest) in *.
  set (t := drop (section_body rest0) rest0).
  assert (f rest = (heading ++ mid ++ tail) ++ f t) as Hf.
  { unfold f. rewrite section_sub_step by done. by rewrite Hrest. }
  assert (f (pre ++ rest) = pre ++ (heading ++ mid ++ tail) ++ f t) as Hfs.
  { unfold f at 1. rewrite sub_copy by done. fold f. by rewrite Hf. }
  split; (split; [|done]); intros Heq; exfalso.
  - rewrite Hfs in Heq. apply app_inv_head in Heq.
    rewrite Hsplit, <-app_assoc in Heq. apply app_inv_head in Heq.
    apply (no_fixed_tail heading (heading ++ mid ++ tail) tail t Hne Hpos Htail).
    fold f. unfold t at 1. rewrite <-Heq, <-app_assoc, Hbody.
    by rewrite drop_app_length.
  - rewrite Hfs in Heq. unfold f at 1 in Heq. rewrite sub_copy in Heq; [|done|].
    + fold f in Heq. apply app_inv_head in Heq. unfold f at 1 in Heq.
      rewrite replaced_again in Heq by done. fold f in Heq.
      apply app_inv_head in Heq.
      by apply (no_fixed_tail heading (heading ++ mid ++ tail) tail (f t) Hne Hpos Htail).
    + rewrite <-app_assoc. rewrite Hsplit in Hpre.
      by apply (no_start_same_head _ _ rest0).
Qed.

Lemma ci_cd_heading_no_junction : no_junction (txt "## CI/CD Integration").
Proof.
  apply no_junction_suffixes, (bool_decide_unpack _). vm_compute. exact I.
Qed.

(** X18: after the first substitution the page holds no
    "## CI/CD Integration", also not one put together from what stood
    before and after a removed section; the pattern matches nowhere in the
    result and the step is idempotent. *)
Theorem X18_ci_cd_heading_removed s :
  contains (txt "## CI/CD Integration") (remove_ci_cd_section s) = false ∧
  re_search ci_cd_pattern (remove_ci_cd_section s) = None ∧
  remove_ci_cd_section (remove_ci_cd_section s) = remove_ci_cd_section s.
Proof.
  assert (contains (txt "## CI/CD Integration") (remove_ci_cd_section s) = false) as Hnone.
  { apply (section_removed (txt "## CI/CD Integration") s []);
      [done|apply ci_cd_heading_no_junction|apply no_start_nil]. }
  assert (re_search ci_cd_pattern (remove_ci_cd_section s) = None) as Hsearch.
  { by apply (search_contains (txt "## CI/CD Integration")). }
  split_and!; [done..|]. by apply re_sub_no_match.
Qed.

Lemma new_practices_shape :
  new_practices =
    txt "## Best Practices" ++ [nl; nl; "#"%char] ++ txt "## " ++ drop 23 new_practices.
Proof. vm_compute. reflexivity. Qed.

Lemma new_practices_tail y :
  no_start (txt "## Best Practices") (txt "## " ++ drop 23 new_practices) y.
Proof.
  apply no_start_suffixes, (bool_decide_unpack _). vm_compute. exact I.
Qed.

(** X19: the Best Practices substitution leaves a page as it is exactly
    when the page holds no "## Best Practices", which is when its pattern
    matches nowhere; on every other page it changes the page, and applied
    to its own result it changes that again, since the new text starts with
    the heading and holds "## " three characters after it. *)
Theorem X19_best_practices_never_settles s :
  (replace_best_practices s = s ↔ contains (txt "## Best Practices") s = false) ∧
  (replace_best_practices (replace_best_practices s) = replace_best_practices s
   ↔ contains (txt "## Best Practices") s = false) ∧
  (re_search old_practices s = None ↔ contains (txt "## Best Practices") s = false).
Proof.
  split_and!; [| |exact (search_contains (txt "## Best Practices") s)].
  - unfold replace_best_practices. rewrite new_practices_shape.
    apply (replacement_never_settles (txt "## Best Practices") [nl; nl; "#"%char]
             (txt "## " ++ drop 23 new_practices) s);
      [done|done|apply new_practices_tail|].
    intros y. cbn [txt String.list_ascii_of_string app section_body].
    rewrite !section_end_long. by vm_compute.
  - unfold replace_best_practices. rewrite new_practices_shape.
    apply (replacement_never_settles (txt "## Best Practices") [nl; nl; "#"%char]
             (txt "## " ++ drop 23 new_practices) s);
      [done|done|apply new_practices_tail|].
    intros y. cbn [txt String.list_ascii_of_string app section_body].
    rewrite !section_end_long. by vm_compute.
Qed.

End section_scans.

(** ** The delimited patterns *)

Section delimited_patterns.
Import CleanPlanfiles.
Implicit Types (heading closing ending repl p a s t w x y : text).

Lemma starts_with_app_split a b s :
  starts_with (a ++ b) s = starts_with a s && starts_with b (drop (length a) s).
Proof.
  revert s. induction a as [|c a IH]; intros s; [done|].
  destruct s as [|d s]; [done|]. cbn [app starts_with length drop].
  by rewrite IH, andb_assoc.
Qed.

Lemma find_text_Some p s n :
  find_text p s = Some n →
  n + length p ≤ length s ∧ starts_with p (drop n s) = true.
Proof.
  revert n. induction s as [|c s IH]; intros n; cbn [find_text].
  - destruct (starts_with p []) eqn:E; [|done]. intros [= <-].
    split; [|done]. apply starts_with_length in E. simpl in *. lia.
  - destruct (starts_with p (c :: s)) eqn:E.
    + intros [= <-]. split; [|done]. apply starts_with_length in E. simpl in *. lia.
    + destruct (find_text p s) as [m|]; [|done]. intros [= <-].
      destruct (IH m eq_refl) as [Hle Hm]. split; [simpl; lia|done].
Qed.

Lemma find_text_None_cons p c s :
  find_text p (c :: s) = None → find_text p s = None.
Proof.
  cbn [find_text]. destruct (starts_with p (c :: s)); [done|].
  by destruct (find_text p s).
Qed.

Lemma find_text_None_drop p s n :
  find_text p s = None → find_text p (drop n s) = None.
Proof.
  revert s. induction n as [|n IH]; intros s Hs; [by rewrite drop_0|].
  destruct s as [|c s]; [done|]. cbn [drop]. by apply IH, (find_text_None_cons p c).
Qed.

(** [.*?] stops at the first place where what follows it matches. *)
Lemma lazy_star_find ending s :
  lazy_star CAny s
      (λ s', if starts_with ending s' then Some (drop (length ending) s') else None)
    = (λ n, drop (n + length ending) s) <$> find_text ending s.
Proof.
  induction s as [|c s IH]; cbn [lazy_star find_text].
  - by destruct (starts_with ending []).
  - destruct (starts_with ending (c :: s)); [done|]. cbn [in_class].
    rewrite IH. by destruct (find_text ending s).
Qed.

Lemma consumes_delimited heading closing :
  consumes (delimited_pattern heading closing) = true.
Proof.
  unfold delimited_pattern. cbn [seqs foldr consumes lit].
  by destruct (consumes (lit heading)), (consumes (lit closing)).
Qed.

(** The delimited pattern at the head of a text. *)
Lemma match_at_delimited heading closing s :
  match_at (delimited_pattern heading closing) s
    = delimited_at heading (closing ++ [nl]) s.
Proof.
  unfold match_at, delimited_at, delimited_pattern.
  change (rmatch (seqs [lit heading; LazyStar CAny; lit closing; lit [nl]]) s Some)
    with (rmatch (lit heading) s
            (λ s1, lazy_star CAny s1
               (λ s2, rmatch (lit closing) s2
                        (λ s3, rmatch (lit [nl]) s3 (λ s4, Some s4))))).
  rewrite rmatch_lit. destruct (starts_with heading s) eqn:E; [|done].
  rewrite (lazy_star_ext _ _ _
             (λ s', if starts_with (closing ++ [nl]) s'
                    then Some (drop (length (closing ++ [nl])) s') else None)).
  2:{ intros x. rewrite !rmatch_lit, starts_with_app_split.
      destruct (starts_with closing x); [|done]. cbn [andb].
      destruct (starts_with [nl] _); [|done].
      by rewrite drop_drop, length_app. }
  rewrite lazy_star_find.
  destruct (find_text (closing ++ [nl]) (drop (length heading) s)) as [n|] eqn:En;
    [|done].
  cbn [fmap option_fmap option_map]. f_equal.
  apply find_text_Some in En as [Hle _]. apply starts_with_length in E.
  rewrite length_drop in Hle. rewrite !length_drop. lia.
Qed.

(** X20: the patterns of the Alternative JSON/YAML Planfiles section and of
    the GitLab passages match at the head of a text exactly when the text
    starts with their first words and their last words and the newline
    occur after these; the match ends with the first such occurrence. *)
Theorem X20_delimited_patterns s :
  match_at old_alternative_section s =
    delimited_at (txt "## Alternative: JSON/YAML Planfiles")
      (txt "This performs a semantic comparison of the plan data structures, not a naive text diff." ++ [nl]) s ∧
  match_at gitlab_pattern s =
    delimited_at (txt "For GitLab-managed") (txt "```" ++ [nl]) s ∧
  (∀ p n, find_text p s = Some n →
     starts_with p (drop n s) = true ∧
     ∀ j, j < n → starts_with p (drop j s) = false) ∧
  (∀ p, find_text p s = None ↔ contains p s = false).
Proof.
  split_and!.
  - exact (match_at_delimited _ _ s).
  - exact (match_at_delimited _ _ s).
  - intros p. induction s as [|c s IH]; intros n; cbn [find_text].
    + destruct (starts_with p []) eqn:E; [|done]. intros [= <-]. split; [done|lia].
    + destruct (starts_with p (c :: s)) eqn:E.
      * intros [= <-]. split; [done|lia].
      * destruct (find_text p s) as [m|]; [|done]. intros [= <-].
        destruct (IH m eq_refl) as [Hm Hmin]. split; [done|].
        intros [|j] Hj; [done|]. apply Hmin. lia.
  - intros p. induction s as [|c s IH]; cbn [find_text contains].
    + by destruct (starts_with p []).
    + destruct (starts_with p (c :: s)); [done|]. cbn [orb].
      rewrite <-IH. by destruct (find_text p s).
Qed.

(** One step of the substitution of a delimited passage. *)
Lemma delimited_sub_step heading closing repl s :
  re_sub (delimited_pattern heading closing) repl s =
    match delimited_at heading (closing ++ [nl]) s with
    | Some n => repl ++ re_sub (delimited_pattern heading closing) repl (drop n s)
    | None =>
        match s with
        | [] => []
        | c :: s' => c :: re_sub (delimited_pattern heading closing) repl s'
        end
    end.
Proof.
  rewrite re_sub_step by apply consumes_delimited. by rewrite match_at_delimited.
Qed.

(** After a heading that nothing closes, nothing matches. *)
Lemma unclosed_no_search heading closing s :
  find_text (closing ++ [nl]) (drop (length heading) s) = None →
  re_search (delimited_pattern heading closing) s = None.
Proof.
  induction s as [|c s IH]; intros Hs; cbn [re_search];
    rewrite match_at_delimited; unfold delimited_at; rewrite Hs;
    destruct (starts_with heading _); cbn [fmap option_fmap option_map]; try done.
  - rewrite IH; [done|].
    assert (drop (length heading) s = drop 1 (drop (length heading) (c :: s))) as ->
      by (by rewrite drop_drop, Nat.add_1_r).
    by apply find_text_None_drop.
  - rewrite IH; [done|].
    assert (drop (length heading) s = drop 1 (drop (length heading) (c :: s))) as ->
      by (by rewrite drop_drop, Nat.add_1_r).
    by apply find_text_None_drop.
Qed.

Lemma search_app heading closing w x :
  no_start heading w x →
  re_search (delimited_pattern heading closing) x = None →
  re_search (delimited_pattern heading closing) (w ++ x) = None.
Proof.
  induction w as [|c w IH]; [done|]. intros [Hh Ht]%no_start_cons Hx.
  cbn [app re_search]. rewrite match_at_delimited. unfold delimited_at.
  rewrite Hh. by rewrite IH.
Qed.

Lemma no_start_app heading w p t :
  no_start heading w (p ++ t) → no_start heading p t →
  no_start heading (w ++ p) t.
Proof.
  intros Hw Hp. induction w as [|c w IH]; [done|].
  apply no_start_cons in Hw as [Hh Ht]. cbn [app]. apply no_start_cons.
  split; [by rewrite <-app_assoc|by apply IH].
Qed.

(** Replacing the passages by a text in which the heading does not start,
    and at whose start the heading cannot end, leaves no match. *)
Lemma delimited_replaced heading closing repl s w :
  heading ≠ [] →
  (∀ y, no_start heading repl y) →
  (∀ k, 0 < k < length heading → starts_with (drop k heading) repl = false) →
  length heading ≤ length repl →
  no_start heading w s →
  re_search (delimited_pattern heading closing)
    (w ++ re_sub (delimited_pattern heading closing) repl s) = None.
Proof.
  intros Hne Hin Hjoin Hlen. revert w.
  induction s as [s IH] using (induction_ltof1 _ length). unfold ltof in IH.
  intros w Hw. destruct (starts_with heading s) eqn:E.
  - destruct (find_text (closing ++ [nl]) (drop (length heading) s)) as [n|] eqn:En.
    + rewrite delimited_sub_step. unfold delimited_at. rewrite E, En.
      cbn [fmap option_fmap option_map]. rewrite app_assoc. apply IH.
      * apply find_text_Some in En as [Hle _]. rewrite length_drop in Hle.
        apply starts_with_length in E. rewrite length_drop, length_app. simpl in *.
        destruct heading; [done|]. simpl in *. lia.
      * apply no_start_app; [|apply Hin].
        intros w1 w2 -> Hw2.
        destruct (decide (length heading ≤ length w2)) as [Hlong|Hshort].
        -- rewrite starts_with_long by done.
           rewrite <-(starts_with_long _ _ s) by done. by apply (Hw w1 w2).
        -- destruct (starts_with heading (w2 ++ _)) eqn:Et; [|done].
           apply starts_with_short in Et; [|lia].
           rewrite starts_with_long in Et by (rewrite length_drop; lia).
           rewrite Hjoin in Et; [done|]. destruct w2; [done|]. simpl in *. lia.
    + pose proof (unclosed_no_search heading closing s En) as Hnone.
      rewrite (re_sub_no_match _ _ _ Hnone). by apply search_app.
  - rewrite delimited_sub_step. unfold delimited_at. rewrite E.
    destruct s as [|c s].
    + apply search_app; [done|]. cbn [re_search]. rewrite match_at_delimited.
      unfold delimited_at. by rewrite E.
    + rewrite (cons_middle c w), app_assoc. apply IH; [simpl; lia|].
      by apply no_start_snoc.
Qed.

Lemma new_alternative_no_start y :
  no_start (txt "## Alternative: JSON/YAML Planfiles") new_alternative_section y.
Proof.
  apply no_start_suffixes, (bool_decide_unpack _). vm_compute. exact I.
Qed.

Lemma new_alternative_no_join :
  Forall (λ k, starts_with (drop k (txt "## Alternative: JSON/YAML Planfiles"))
                 new_alternative_section = false)
         (seq 1 (length (txt "## Alternative: JSON/YAML Planfiles") - 1)).
Proof. apply (bool_decide_unpack _). vm_compute. exact I. Qed.

(** X21: after the second substitution the pattern of the Alternative
    JSON/YAML Planfiles section matches nowhere, although the new text ends
    with the words that close the pattern; the step is idempotent. *)
Theorem X21_alternative_section_replaced s :
  re_search old_alternative_section (replace_alternative_section s) = None ∧
  replace_alternative_section (replace_alternative_section s)
    = replace_alternative_section s ∧
  contains (txt "This performs a semantic comparison of the plan data structures, not a naive text diff." ++ [nl])
    new_alternative_section = true.
Proof.
  assert (re_search old_alternative_section (replace_alternative_section s) = None)
    as Hnone.
  { apply (delimited_replaced (txt "## Alternative: JSON/YAML Planfiles")
             (txt "This performs a semantic comparison of the plan data structures, not a naive text diff.")
             new_alternative_section s []).
    - done.
    - apply new_alternative_no_start.
    - intros k Hk. pose proof new_alternative_no_join as Hall.
      rewrite Forall_forall in Hall. apply Hall, elem_of_seq. lia.
    - apply (bool_decide_unpack _). vm_compute. exact I.
    - apply no_start_nil. }
  split_and!; [done|by apply re_sub_no_match|]. vm_compute. reflexivity.
Qed.

End delimited_patterns.

(** ** [str.strip] *)

Section strip_facts.
Implicit Types (s t a b : text) (c : ascii).

Lemma lstrip_split s :
  ∃ a, s = a ++ lstrip s ∧ Forall (λ c, py_isspace c = true) a.
Proof.
  induction s as [|c s (a & Hs & Ha)]; [by exists []|]. cbn [lstrip].
  destruct (py_isspace c) eqn:E.
  - exists (c :: a). split; [by rewrite Hs at 1|by constructor].
  - by exists [].
Qed.

Lemma lstrip_head s c : head (lstrip s) = Some c → py_isspace c = false.
Proof.
  induction s as [|d s IH]; [done|]. cbn [lstrip].
  destruct (py_isspace d) eqn:E; [done|]. by intros [= <-].
Qed.

Lemma lstrip_fixed s :
  (∀ c, head s = Some c → py_isspace c = false) → lstrip s = s.
Proof. destruct s as [|c s]; [done|]. intros Hc. cbn [lstrip]. by rewrite Hc. Qed.

Lemma rstrip_split s :
  ∃ b, s = rstrip s ++ b ∧ Forall (λ c, py_isspace c = true) b.
Proof.
  destruct (lstrip_split (reverse s)) as (a & Hs & Ha).
  exists (reverse a). split; [|by apply Forall_reverse].
  unfold rstrip. rewrite <-reverse_app, <-Hs. by rewrite reverse_involutive.
Qed.

Lemma rstrip_last s c : last (rstrip s) = Some c → py_isspace c = false.
Proof. unfold rstrip. rewrite last_reverse. apply lstrip_head. Qed.

Lemma rstrip_fixed s :
  (∀ c, last s = Some c → py_isspace c = false) → rstrip s = s.
Proof.
  intros Hc. unfold rstrip. rewrite lstrip_fixed; [apply reverse_involutive|].
  intros c. rewrite head_reverse. apply Hc.
Qed.

Lemma rstrip_head s c :
  (∀ c, head s = Some c → py_isspace c = false) →
  head (rstrip s) = Some c → py_isspace c = false.
Proof.
  intros Hs. destruct (rstrip_split s) as (b & Heq & _).
  destruct (rstrip s) as [|d t]; [done|]. intros [= <-].
  apply Hs. by rewrite Heq.
Qed.

(** X22: [strip] of a text is the text without a run of whitespace at its
    start and one at its end; what is left neither starts nor ends with
    whitespace, and stripping it again changes nothing. *)
Theorem X22_strip s :
  (∃ a b, s = a ++ strip s ++ b
          ∧ Forall (λ c, py_isspace c = true) a
          ∧ Forall (λ c, py_isspace c = true) b) ∧
  (∀ c, head (strip s) = Some c ∨ last (strip s) = Some c → py_isspace c = false) ∧
  strip (strip s) = strip s.
Proof.
  assert (∀ c, head (strip s) = Some c → py_isspace c = false) as Hhead.
  { intros c. apply rstrip_head. intros d. apply lstrip_head. }
  assert (∀ c, last (strip s) = Some c → py_isspace c = false) as Hlast.
  { intros c. apply rstrip_last. }
  split_and!.
  - destruct (lstrip_split s) as (a & Hs & Ha).
    destruct (rstrip_split (lstrip s)) as (b & Ht & Hb).
    exists a, b. split; [|done]. unfold strip. by rewrite <-Ht.
  - intros c [Hc|Hc]; [by apply Hhead|by apply Hlast].
  - unfold strip at 1. rewrite (lstrip_fixed (strip s)) by done.
    by apply rstrip_fixed.
Qed.

End strip_facts.

(** ** The pattern of the numbered section *)

Section numbered_pattern.
Import CleanPlanfiles.
Implicit Types (after p s t : text) (k : cont).

Lemma leading_digits_le s : leading_digits s ≤ length s.
Proof. induction s as [|c s IH]; simpl; [lia|]. destruct (is_digit c); simpl; lia. Qed.

Lemma leading_digits_drop s j :
  j < leading_digits s → ∃ d t, drop j s = d :: t ∧ is_digit d = true.
Proof.
  revert j. induction s as [|c s IH]; intros j; simpl; [lia|].
  destruct (is_digit c) eqn:E; [|lia]. destruct j as [|j]; [by eauto|].
  intros Hj. apply IH. lia.
Qed.

(** [\d{m,}] takes every digit there is when what follows it cannot start
    with a digit. *)
Lemma min_rep_digits m s k :
  (∀ j, j < leading_digits s → k (drop j s) = None) →
  min_rep CDigit m s k =
    if decide (m ≤ leading_digits s) then k (drop (leading_digits s) s) else None.
Proof.
  revert m. induction s as [|c s IH]; intros m Hk; cbn [min_rep leading_digits in_class].
  - destruct m; by case_decide; try lia.
  - destruct (is_digit c) eqn:E.
    + rewrite IH.
      2:{ intros j Hj. apply (Hk (S j)). simpl. rewrite E. lia. }
      assert (k (c :: s) = None) as Hstop.
      { apply (Hk 0). simpl. rewrite E. lia. }
      cbn [drop]. destruct m as [|m]; cbn [pred]; repeat case_decide; try lia;
        by destruct (k (drop (leading_digits s) s)).
    + destruct m; by case_decide; try lia.
Qed.

(** "### ", digits and [after], when [after] starts with no digit. *)
Lemma rmatch_numbered a after rest s k :
  is_digit a = false →
  rmatch (Seq (lit (txt "### ")) (Seq (plus CDigit) (Seq (lit (a :: after)) rest))) s k =
    match numbered_at (a :: after) s with
    | Some n => rmatch rest (drop n s) k
    | None => None
    end.
Proof.
  intros Ha.
  change (rmatch (Seq (lit (txt "### ")) (Seq (plus CDigit) (Seq (lit (a :: after)) rest))) s k)
    with (rmatch (lit (txt "### ")) s
            (λ s1, min_rep CDigit 1 s1 (λ s2, rmatch (lit (a :: after)) s2
                                               (λ s3, rmatch rest s3 k)))).
  rewrite rmatch_lit. unfold numbered_at.
  change (length (txt "### ")) with 4.
  destruct (starts_with (txt "### ") s); [|done]. cbn [andb].
  rewrite min_rep_digits.
  2:{ intros j (d & t & -> & Hd)%leading_digits_drop. rewrite rmatch_lit.
      cbn [starts_with]. rewrite bool_decide_eq_false_2; [done|]. congruence. }
  case_decide as Hn.
  - rewrite bool_decide_eq_true_2 by lia. cbn [andb]. rewrite rmatch_lit, drop_drop.
    destruct (starts_with (a :: after) _); [|done].
    by rewrite drop_drop.
  - by rewrite bool_decide_eq_false_2 by lia.
Qed.

(** The lookahead holds where the numbered section ends. *)
Lemma rmatch_production_end s k :
  rmatch (Ahead (Alt (seqs [lit (txt "### "); plus CDigit; lit (txt ".")])
                     (Alt (lit (txt "## ")) Eos))) s k =
    if production_end s then k s else None.
Proof.
  pose proof (rmatch_section_end s Some) as Hend.
  cbn [rmatch] in Hend |- *.
  change (rmatch (seqs [lit (txt "### "); plus CDigit; lit (txt ".")]) s Some)
    with (rmatch (Seq (lit (txt "### ")) (Seq (plus CDigit) (Seq (lit ("."%char :: [])) Eps)))
            s Some).
  rewrite rmatch_numbered by done. unfold production_end.
  change ("."%char :: []) with (txt ".").
  destruct (numbered_at (txt ".") s) as [n|].
  - by rewrite bool_decide_eq_true_2 by (by eexists).
  - rewrite bool_decide_eq_false_2 by (by intros [? ?]). cbn [orb].
    destruct (section_end s);
      by destruct (match rmatch (lit (txt "## ")) s Some with
                   | Some r => Some r
                   | None => _
                   end).
Qed.

Lemma lazy_star_production s :
  lazy_star CAny s (λ s', if production_end s' then Some s' else None)
    = Some (drop (production_body s) s).
Proof.
  induction s as [|c s IH]; [done|]. cbn [lazy_star production_body].
  destruct (production_end (c :: s)); [done|]. cbn [in_class drop]. apply IH.
Qed.

Lemma production_body_le s : production_body s ≤ length s.
Proof.
  induction s as [|c s IH]; cbn [production_body].
  - by destruct (production_end []).
  - destruct (production_end (c :: s)); simpl; lia.
Qed.

Lemma production_body_spec s :
  production_end (drop (production_body s) s) = true ∧
  (∀ j, j < production_body s → production_end (drop j s) = false).
Proof.
  induction s as [|c s [IHend IHmin]]; cbn [production_body].
  - split; [done|]. intros j Hj. simpl in Hj. lia.
  - destruct (production_end (c :: s)) eqn:E.
    + split; [done|]. intros j Hj. lia.
    + split; [done|]. intros [|j] Hj; [done|]. apply IHmin. lia.
Qed.

Lemma numbered_at_le after s n : numbered_at after s = Some n → n ≤ length s.
Proof.
  unfold numbered_at.
  destruct (starts_with (txt "### ") s) eqn:E1; [|done]. cbn [andb].
  case_bool_decide as Hn; [|done]. cbn [andb].
  destruct (starts_with after _) eqn:E2; [|done]. intros [= <-].
  apply starts_with_length in E2. rewrite length_drop in E2.
  pose proof (leading_digits_le (drop 4 s)) as Hle. rewrite length_drop in Hle. lia.
Qed.

Lemma match_at_production s : match_at production_pattern s = production_at s.
Proof.
  unfold match_at, production_at, production_pattern.
  change (rmatch (seqs [lit (txt "### "); plus CDigit;
                        lit (txt ". Use Planfiles in Production"); LazyStar CAny;
                        Ahead (Alt (seqs [lit (txt "### "); plus CDigit; lit (txt ".")])
                                   (Alt (lit (txt "## ")) Eos))]) s Some)
    with (rmatch (Seq (lit (txt "### ")) (Seq (plus CDigit)
            (Seq (lit ("."%char :: txt " Use Planfiles in Production"))
               (seqs [LazyStar CAny;
                      Ahead (Alt (seqs [lit (txt "### "); plus CDigit; lit (txt ".")])
                                 (Alt (lit (txt "## ")) Eos))])))) s Some).
  rewrite rmatch_numbered by done.
  change ("."%char :: txt " Use Planfiles in Production")
    with (txt ". Use Planfiles in Production").
  destruct (numbered_at (txt ". Use Planfiles in Production") s) as [n|] eqn:En; [|done].
  change (rmatch (seqs [LazyStar CAny;
                        Ahead (Alt (seqs [lit (txt "### "); plus CDigit; lit (txt ".")])
                                   (Alt (lit (txt "## ")) Eos))]) (drop n s) Some)
    with (lazy_star CAny (drop n s)
            (λ s2, rmatch (Ahead (Alt (seqs [lit (txt "### "); plus CDigit; lit (txt ".")])
                                      (Alt (lit (txt "## ")) Eos))) s2 (λ s3, Some s3))).
  rewrite (lazy_star_ext _ _ _ (λ s', if production_end s' then Some s' else None))
    by (intros x; apply rmatch_production_end).
  rewrite lazy_star_production. cbn [fmap option_fmap option_map]. f_equal.
  apply numbered_at_le in En.
  pose proof (production_body_le (drop n s)) as Hle.
  rewrite length_drop in Hle. rewrite !length_drop. lia.
Qed.

(** X23: the pattern of the Use Planfiles in Production section matches at
    the head of a text exactly when the text starts with "### ", all the
    digits that follow, at least one, and ". Use Planfiles in Production";
    the match goes on to the first place where "### ", digits and "."
    start, where "## " starts, where the text ends, or where its last
    newline stands. *)
Theorem X23_production_pattern s :
  match_at production_pattern s = production_at s ∧
  production_end (drop (production_body s) s) = true ∧
  (∀ j, j < production_body s → production_end (drop j s) = false) ∧
  (section_end s = true → production_end s = true) ∧
  (∀ after n, numbered_at after s = Some n →
     ∃ digits, digits ≠ [] ∧ Forall (λ c, is_digit c = true) digits
               ∧ take n s = txt "### " ++ digits ++ after).
Proof.
  split_and!.
  - apply match_at_production.
  - apply production_body_spec.
  - apply production_body_spec.
  - unfold production_end. intros ->. apply orb_true_r.
  - intros after n. unfold numbered_at.
    destruct (starts_with (txt "### ") s) eqn:E1; [|done]. cbn [andb].
    case_bool_decide as Hn; [|done]. cbn [andb].
    destruct (starts_with after _) eqn:E2; [|done]. intros [= <-].
    apply starts_with_app in E1. change (length (txt "### ")) with 4 in E1.
    assert (drop (4 + leading_digits (drop 4 s)) s
            = drop (leading_digits (drop 4 s)) (drop 4 s)) as Hd
      by (by rewrite drop_drop).
    rewrite Hd in E2. clear Hd. apply starts_with_app in E2.
    remember (drop 4 s) as rest eqn:Hrest. clear Hrest.
    pose proof (leading_digits_le rest) as Hle.
    exists (take (leading_digits rest) rest). split_and!.
    + intros Hnil%(f_equal length). rewrite length_take in Hnil.
      simpl in Hnil. lia.
    + clear. induction rest as [|c rest IH]; simpl; [done|].
      destruct (is_digit c) eqn:E; [|done]. simpl. by constructor.
    + assert (s = (txt "### " ++ take (leading_digits rest) rest ++ after)
                  ++ drop (length after) (drop (leading_digits rest) rest)) as ->.
      { rewrite <-!app_assoc, <-E2, take_drop. done. }
      apply take_app_length'. rewrite !length_app, length_take.
      change (length (txt "### ")) with 4. lia.
Qed.

End numbered_pattern.

(** ** Runs one after the other *)

Section runs_in_sequence.
Import UpdateTerraformDocs.
Implicit Types (entries : list (string * updates_dict)) (fs : gmap string text).

(** A second run changes every file the first run changed, and leaves the
    disk of the first run as it is only when the first run changed no
    file. *)
Lemma script_for_again entries fs :
  NoDup (target ∘ fst <$> entries) →
  analysis_file ∉ (target ∘ fst <$> entries) →
  let fs1 := disk (script_for entries fs) in
  (∀ e, e ∈ entries → changes fs e = true → changes fs1 e = true) ∧
  (disk (script_for entries fs1) = fs1 ↔ Forall (λ e, changes fs e = false) entries).
Proof.
  intros Hnodup Han fs1.
  destruct (script_for_disk entries fs Hnodup Han) as [Hin Hother].
  destruct (script_for_disk entries fs1 Hnodup Han) as [Hin1 Hother1].
  fold fs1 in Hin, Hother.
  assert (∀ e, e ∈ entries → changes fs e = true → changes fs1 e = true) as Hagain.
  { intros [f d] He. unfold changes. cbn [fst snd]. rewrite (Hin f d He).
    destruct (fs !! target f) as [c|]; [|done]. cbn [fmap option_fmap option_map].
    intros Hch%bool_decide_eq_true. apply bool_decide_eq_true.
    intros Heq. by apply Hch, transform_grows. }
  split; [done|]. split.
  - intros Hfix. apply Forall_forall. intros [f d] He.
    destruct (changes fs (f, d)) eqn:Hch; [|done]. exfalso.
    apply (Hagain _ He) in Hch. specialize (Hin1 f d He). rewrite Hfix in Hin1.
    unfold changes in Hch. cbn [fst snd] in Hch.
    destruct (fs1 !! target f) as [c1|]; [|done].
    injection Hin1 as Heq. apply bool_decide_eq_true in Hch. by apply Hch.
  - intros Hall. apply map_eq. intros q.
    destruct (decide (q = analysis_file)) as [->|Hq].
    { destruct (script_for_analysis entries fs) as (_ & Hnone & _).
      destruct (script_for_analysis entries fs1) as (_ & Hnone1 & _).
      fold fs1 in Hnone. by rewrite Hnone, Hnone1. }
    destruct (decide (q ∈ target ∘ fst <$> entries)) as [Hq'|Hq'].
    + apply list_elem_of_fmap in Hq' as ([f d] & -> & He). cbn [compose fst].
      rewrite (Hin1 f d He), (Hin f d He).
      rewrite Forall_forall in Hall. specialize (Hall _ He).
      unfold changes in Hall. cbn [fst snd] in Hall.
      destruct (fs !! target f) as [c|]; [|done].
      cbn [fmap option_fmap option_map]. apply bool_decide_eq_false in Hall.
      destruct (decide (transform d c = c)) as [Heq|Hne]; [by rewrite !Heq|done].
    + by rewrite Hother1.
Qed.

(** A file that is no target and not the analysis file passes through the
    script. *)
Lemma script_for_insert entries fs p data :
  NoDup (target ∘ fst <$> entries) →
  analysis_file ∉ (target ∘ fst <$> entries) →
  p ∉ (target ∘ fst <$> entries) → p ≠ analysis_file →
  disk (script_for entries (<[p := data]> fs))
    = <[p := data]> (disk (script_for entries fs)).
Proof.
  intros Hnodup Han Hp Hpa.
  destruct (script_for_disk entries fs Hnodup Han) as [Hin Hother].
  destruct (script_for_disk entries (<[p := data]> fs) Hnodup Han) as [Hin1 Hother1].
  apply map_eq. intros q.
  destruct (decide (q = analysis_file)) as [->|Hq].
  { destruct (script_for_analysis entries fs) as (_ & Hnone & _).
    destruct (script_for_analysis entries (<[p := data]> fs)) as (_ & Hnone1 & _).
    rewrite lookup_insert_ne by done. by rewrite Hnone, Hnone1. }
  destruct (decide (q ∈ target ∘ fst <$> entries)) as [Hq'|Hq'].
  - assert (p ≠ q) as Hpq by (by intros ->).
    rewrite lookup_insert_ne by done.
    apply list_elem_of_fmap in Hq' as ([f d] & -> & He). cbn [compose fst] in *.
    rewrite (Hin1 f d He), (Hin f d He). by rewrite lookup_insert_ne.
  - rewrite Hother1 by done. destruct (decide (p = q)) as [->|Hpq].
    + by rewrite !lookup_insert_eq.
    + rewrite !lookup_insert_ne by done. by rewrite Hother.
Qed.

Lemma page_no_target :
  (CleanPlanfiles.file_path ∉ (target ∘ fst <$> updates))
  ∧ CleanPlanfiles.file_path ≠ analysis_file.
Proof. apply (bool_decide_unpack _). vm_compute. exact I. Qed.

(** The two scripts in either order, for any table whose targets are not
    the page. *)
Lemma scripts_commute entries fs content :
  NoDup (target ∘ fst <$> entries) →
  analysis_file ∉ (target ∘ fst <$> entries) →
  CleanPlanfiles.file_path ∉ (target ∘ fst <$> entries) →
  CleanPlanfiles.file_path ≠ analysis_file →
  fs !! CleanPlanfiles.file_path = Some content →
  let a := CleanPlanfiles.script (disk (script_for entries fs)) in
  let b := script_for entries (disk (CleanPlanfiles.script fs)) in
  res a = Ok tt ∧ res b = Ok tt ∧ disk a = disk b ∧
  disk a !! CleanPlanfiles.file_path = Some (CleanPlanfiles.transform content).
Proof.
  intros Hnodup Han Hp Hpa Hfs a b. subst a b.
  destruct (script_for_disk entries fs Hnodup Han) as [_ Hother].
  rewrite (clean_script_present fs content Hfs).
  rewrite (clean_script_present (disk (script_for entries fs)) content)
    by (by rewrite Hother).
  cbn [res disk]. split_and!.
  - done.
  - apply (script_for_analysis entries).
  - by rewrite script_for_insert.
  - apply lookup_insert_eq.
Qed.

(** X24: a second run of the table-driven script changes again every file
    the first run changed; the disk after the second run is the disk after
    the first one exactly when the first run changed no file. *)
Theorem X24_second_run_changes_again (fs : gmap string text) :
  let fs1 := disk (script fs) in
  (∀ e, e ∈ updates → changes fs e = true → changes fs1 e = true) ∧
  (disk (script fs1) = fs1 ↔ Forall (λ e, changes fs e = false) updates).
Proof. exact (script_for_again updates fs updates_targets_nodup analysis_file_no_target). Qed.

(** X25: the two scripts do not meet: on a disk that holds the page, running
    the page-cleaning script after the table-driven one leaves the same
    disk as running it before, both orders end without an exception, and
    the page holds what the pipeline makes of it. *)
Theorem X25_scripts_commute (fs : gmap string text) (content : text) :
  fs !! CleanPlanfiles.file_path = Some content →
  let a := CleanPlanfiles.script (disk (script fs)) in
  let b := script (disk (CleanPlanfiles.script fs)) in
  res a = Ok tt ∧ res b = Ok tt ∧ disk a = disk b ∧
  disk a !! CleanPlanfiles.file_path = Some (CleanPlanfiles.transform content).
Proof.
  exact (scripts_commute updates fs content updates_targets_nodup analysis_file_no_target
           (proj1 page_no_target) (proj2 page_no_target)).
Qed.

Lemma X25_witness :
  let fs : gmap string text := <[CleanPlanfiles.file_path := txt "# Planfiles"]> ∅ in
  let a := CleanPlanfiles.script (disk (script fs)) in
  let b := script (disk (CleanPlanfiles.script fs)) in
  res a = Ok tt ∧ res b = Ok tt ∧ disk a = disk b ∧
  disk a !! CleanPlanfiles.file_path = Some (CleanPlanfiles.transform (txt "# Planfiles")).
Proof.
  apply (X25_scripts_commute (<[CleanPlanfiles.file_path := txt "# Planfiles"]> ∅)
           (txt "# Planfiles")).
  reflexivity.
Defined.

End runs_in_sequence.

(** ** How often the addon goes in *)

Section addon_count.
Import UpdateTerraformDocs.
Implicit Types (old new s : text).

Lemma count_scan_skip old n s :
  n ≤ length s → count_scan old n s = count_scan old 0 (drop n s).
Proof.
  revert s. induction n as [|n IH]; intros s Hn; [by rewrite drop_0|].
  destruct s as [|c s]; simpl in *; [lia|]. apply IH. lia.
Qed.

Lemma count_scan_step a old c s :
  count_scan (a :: old) 0 (c :: s) =
    if starts_with (a :: old) (c :: s)
    then S (count_scan (a :: old) 0 (drop (length old) s))
    else count_scan (a :: old) 0 s.
Proof.
  cbn [count_scan]. destruct (starts_with (a :: old) (c :: s)) eqn:E; [|done].
  cbn [length pred]. rewrite count_scan_skip; [done|].
  apply starts_with_length in E. simpl in E. lia.
Qed.

(** [str.replace] puts the new text in once for each occurrence that
    [str.count] counts. *)
Lemma replace_scan_count a old new s :
  length (replace_scan (a :: old) new 0 s) + count_scan (a :: old) 0 s * length (a :: old)
    = length s + count_scan (a :: old) 0 s * length new.
Proof.
  induction s as [s IH] using (induction_ltof1 _ length). unfold ltof in IH.
  destruct s as [|c s]; [done|]. rewrite replace_scan_step, count_scan_step.
  destruct (starts_with (a :: old) (c :: s)) eqn:E.
  - pose proof (starts_with_length _ _ E) as Hlen.
    specialize (IH (drop (length old) s)). rewrite length_drop in IH.
    rewrite length_app. simpl in *. lia.
  - specialize (IH s). simpl in *. lia.
Qed.

Lemma count_scan_contains a old s :
  0 < count_scan (a :: old) 0 s ↔ contains (a :: old) s = true.
Proof.
  induction s as [s IH] using (induction_ltof1 _ length). unfold ltof in IH.
  destruct s as [|c s]; [simpl; split; [lia|done]|].
  rewrite count_scan_step. cbn [contains].
  destruct (starts_with (a :: old) (c :: s)) eqn:E; cbn [orb].
  - split; [done|lia].
  - apply IH. simpl. lia.
Qed.

(** X26: the purpose step puts the addon and a newline in once for every
    occurrence of ":::\n\n<Screengrab" that [str.count] counts in the page,
    not only for the first: the result is longer than the page by that
    number of times the length of the addon and one; there is such an
    occurrence exactly when the anchor occurs in the page. *)
Theorem X26_addon_for_every_anchor (d : updates_dict) (content : text) :
  length (add_purpose d content) =
    length content +
    (if truthy (purpose_addon d)
     then str_count screengrab_anchor content * (length (purpose_addon d) + 1)
     else 0) ∧
  (0 < str_count screengrab_anchor content
   ↔ contains screengrab_anchor content = true).
Proof.
  destruct screengrab_anchor_cons as (a & old & Hanchor). rewrite Hanchor.
  cbn [str_count]. split; [|apply count_scan_contains].
  unfold add_purpose. destruct (truthy (purpose_addon d)); [|lia].
  cbv zeta. rewrite str_replace_same, Hanchor. cbn [str_replace].
  pose proof (replace_scan_count a old (purpose_addon d ++ [nl] ++ a :: old) content)
    as Hcount.
  rewrite !length_app in Hcount. cbn [length] in Hcount |- *. lia.
Qed.

End addon_count.

(** ** Sections with a subheading *)

Section subheadings.
Import CleanPlanfiles.
Implicit Types (heading repl body rest : text).

Lemma section_end_before_subheading body rest :
  body ≠ [] → starts_with (txt "## ") body = false →
  section_end (body ++ txt "### " ++ rest) = false.
Proof.
  intros Hne Hbody. destruct body as [|c [|c' [|c'' body]]]; [done| | |].
  - change ([c] ++ txt "### " ++ rest) with (c :: "#" :: "#" :: "#" :: " " :: rest)%char.
    rewrite section_end_long. cbn [txt String.list_ascii_of_string starts_with].
    rewrite (bool_decide_eq_false_2 (" " = "#")%char) by done.
    by rewrite !andb_false_r.
  - change ([c; c'] ++ txt "### " ++ rest)
      with (c :: c' :: "#" :: "#" :: "#" :: " " :: rest)%char.
    rewrite section_end_long. cbn [txt String.list_ascii_of_string starts_with].
    rewrite (bool_decide_eq_false_2 (" " = "#")%char) by done.
    by rewrite !andb_false_r.
  - change ((c :: c' :: c'' :: body) ++ txt "### " ++ rest)
      with (c :: c' :: ((c'' :: body) ++ txt "### " ++ rest)).
    rewrite section_end_long.
    change (c :: c' :: ((c'' :: body) ++ txt "### " ++ rest))
      with ((c :: c' :: c'' :: body) ++ txt "### " ++ rest).
    rewrite starts_with_long; [done|]. simpl. lia.
Qed.

(** A section body that holds no "## " ends one character into the "### "
    that follows it. *)
Lemma section_body_subheading body rest :
  contains (txt "## ") body = false →
  section_body (body ++ txt "### " ++ rest) = S (length body).
Proof.
  induction body as [|c body IH].
  - intros _. change ([] ++ txt "### " ++ rest) with ("#" :: "#" :: "#" :: " " :: rest)%char.
    cbn [section_body]. rewrite !section_end_long. by vm_compute.
  - intros [Hhead Htail]%orb_false_iff.
    change ((c :: body) ++ txt "### " ++ rest) with (c :: (body ++ txt "### " ++ rest)).
    cbn [section_body].
    change (c :: (body ++ txt "### " ++ rest)) with ((c :: body) ++ txt "### " ++ rest).
    rewrite section_end_before_subheading by done.
    cbn [length]. f_equal. by apply IH.
Qed.

(** The substitution of a section stops at the first subheading. *)
Lemma section_sub_subheading heading repl body rest :
  heading ≠ [] → contains (txt "## ") body = false →
  re_sub (section_pattern heading) repl (heading ++ body ++ txt "### " ++ rest)
    = repl ++ re_sub (section_pattern heading) repl (txt "## " ++ rest).
Proof.
  intros Hne Hbody. rewrite section_sub_step by done.
  rewrite starts_with_self, drop_app_length, section_body_subheading by done.
  do 2 f_equal.
  change (txt "### " ++ rest) with ("#"%char :: (txt "## " ++ rest)).
  rewrite (cons_middle "#"%char body), app_assoc.
  apply drop_app_length'. rewrite length_app. simpl. lia.
Qed.

(** C7: the first substitution does not remove a CI/CD Integration section
    that has a subheading.  Its match ends where "## " starts, and "## "
    starts one character into "### ": when no "## " stands between the
    heading and the first "### ", only the text up to that "#" is cut, and
    the subheading, turned into a heading, stays with all that follows it.
    The fourth substitution stops at the same place, so it replaces only the
    first lines of a Best Practices section that has subheadings.  On the
    page "## CI/CD Integration", "foo", "### Sub", "bar", "## Next" the
    script writes "## Sub", "bar", "## Next", not "## Next". *)
Theorem C7_section_with_subheading_not_removed :
  (∀ body rest, contains (txt "## ") body = false →
     remove_ci_cd_section (txt "## CI/CD Integration" ++ body ++ txt "### " ++ rest)
       = remove_ci_cd_section (txt "## " ++ rest)
     ∧ replace_best_practices (txt "## Best Practices" ++ body ++ txt "### " ++ rest)
       = new_practices ++ replace_best_practices (txt "## " ++ rest)) ∧
  let page := unlines [txt "## CI/CD Integration"; txt "foo"; txt "### Sub";
                       txt "bar"; txt "## Next"; []] in
  let left := unlines [txt "## Sub"; txt "bar"; txt "## Next"; []] in
  remove_ci_cd_section page = left ∧
  transform page = left ∧
  left ≠ unlines [txt "## Next"; []] ∧
  script (<[file_path := page]> ∅) =
    Outcome (Ok tt) (<[file_path := left]> ∅) (EvWrite file_path left :: clean_prints).
Proof.
  split.
  - intros body rest Hbody. split.
    + unfold remove_ci_cd_section.
      change ci_cd_pattern with (section_pattern (txt "## CI/CD Integration")).
      by rewrite section_sub_subheading.
    + unfold replace_best_practices.
      change old_practices with (section_pattern (txt "## Best Practices")).
      by rewrite section_sub_subheading.
  - intros page left.
    assert (transform page = left) as Hleft by (vm_compute; reflexivity).
    split_and!.
    + vm_compute. reflexivity.
    + done.
    + apply (bool_decide_eq_false_1 _). vm_compute. reflexivity.
    + rewrite (clean_script_present _ page) by apply lookup_insert_eq.
      rewrite Hleft. by rewrite insert_insert_eq.
Qed.

End subheadings.

(** ** The pipeline without [re] *)

Section pipeline_without_re.
Import CleanPlanfiles.
Implicit Types (r : regex) (repl s : text) (passage_at : text → option nat).

Lemma replace_passages_skip passage_at repl n s :
  n ≤ length s →
  replace_passages passage_at repl n s = replace_passages passage_at repl 0 (drop n s).
Proof.
  revert s. induction n as [|n IH]; intros s Hn; [by rewrite drop_0|].
  destruct s as [|c s]; simpl in *; [lia|]. apply IH. lia.
Qed.

(** [re.sub] with a pattern that takes at least one character is the scan
    that cuts the passages the pattern matches. *)
Lemma re_sub_passages r repl passage_at s :
  consumes r = true → (∀ x, match_at r x = passage_at x) →
  re_sub r repl s = replace_passages passage_at repl 0 s.
Proof.
  intros Hr Hat. induction s as [s IH] using (induction_ltof1 _ length).
  unfold ltof in IH. rewrite re_sub_step by done.
  destruct (match_at r s) as [n|] eqn:E.
  - pose proof (match_at_bounds _ _ _ E) as [Hn Hpos]. specialize (Hpos Hr).
    rewrite Hat in E. destruct s as [|c s]; [simpl in Hn; lia|].
    destruct n as [|n]; [lia|]. cbn [replace_passages]. rewrite E.
    rewrite replace_passages_skip by (simpl in Hn; lia). cbn [drop].
    f_equal. apply IH. rewrite length_drop. simpl. lia.
  - rewrite Hat in E. destruct s as [|c s]; [done|].
    cbn [replace_passages]. rewrite E. f_equal. apply IH. simpl. lia.
Qed.

Lemma cut_ci_cd_spec s : remove_ci_cd_section s = cut_ci_cd s.
Proof.
  apply (re_sub_passages (section_pattern (txt "## CI/CD Integration")));
    [done|apply match_at_section].
Qed.

Lemma put_working_with_planfiles_spec s :
  replace_alternative_section s = put_working_with_planfiles s.
Proof.
  apply (re_sub_passages
           (delimited_pattern (txt "## Alternative: JSON/YAML Planfiles")
              (txt "This performs a semantic comparison of the plan data structures, not a naive text diff.")));
    [apply consumes_delimited|apply match_at_delimited].
Qed.

Lemma cut_production_spec s : remove_production_section s = cut_production s.
Proof. apply re_sub_passages; [done|apply match_at_production]. Qed.

Lemma put_best_practices_spec s : replace_best_practices s = put_best_practices s.
Proof.
  apply (re_sub_passages (section_pattern (txt "## Best Practices")));
    [done|apply match_at_section].
Qed.

Lemma cut_gitlab_spec s : remove_gitlab_passages s = cut_gitlab s.
Proof.
  apply (re_sub_passages (delimited_pattern (txt "For GitLab-managed") (txt "```")));
    [apply consumes_delimited|apply match_at_delimited].
Qed.

(** X27: each of the five substitutions is a scan that needs no [re]: from
    left to right, where a passage starts it is passed over and the
    replacement written, elsewhere the character is copied; the passages
    are found by comparing with the heading and looking for the first place
    where the passage ends.  What the script makes of a page, and writes, is
    these five scans and the collapsing of newline runs, in the order of the
    source. *)
Theorem X27_pipeline_without_re (fs : gmap string text) (content : text) :
  remove_ci_cd_section content = cut_ci_cd content ∧
  replace_alternative_section content = put_working_with_planfiles content ∧
  remove_production_section content = cut_production content ∧
  replace_best_practices content = put_best_practices content ∧
  remove_gitlab_passages content = cut_gitlab content ∧
  transform content = pipeline content ∧
  script (<[file_path := content]> fs) =
    Outcome (Ok tt) (<[file_path := pipeline content]> fs)
            (EvWrite file_path (pipeline content) :: clean_prints).
Proof.
  assert (transform content = pipeline content) as Hsame.
  { unfold transform, pipeline. rewrite re_sub_blank_lines_collapse.
    fold (remove_ci_cd_section content). rewrite cut_ci_cd_spec.
    fold (replace_alternative_section (cut_ci_cd content)).
    rewrite put_working_with_planfiles_spec.
    fold (remove_production_section (put_working_with_planfiles (cut_ci_cd content))).
    rewrite cut_production_spec.
    fold (replace_best_practices
            (cut_production (put_working_with_planfiles (cut_ci_cd content)))).
    rewrite put_best_practices_spec.
    fold (remove_gitlab_passages
            (put_best_practices
               (cut_production (put_working_with_planfiles (cut_ci_cd content))))).
    by rewrite cut_gitlab_spec. }
  split_and!.
  - apply cut_ci_cd_spec.
  - apply put_working_with_planfiles_spec.
  - apply cut_production_spec.
  - apply put_best_practices_spec.
  - apply cut_gitlab_spec.
  - done.
  - rewrite (clean_script_present _ content) by apply lookup_insert_eq.
    rewrite Hsame. by rewrite insert_insert_eq.
Qed.

End pipeline_without_re.
